(** * nevergrad/parametrization/mutation.py: structured mutation operators

    A shallow embedding of the window builder [_make_slices] and of the
    operators [Crossover], [Translation], [LocalGaussian] and
    [TunedTranslation], followed by the properties proved about them.

    Conventions of the embedding.
    - Python integers are [Z]; positions in a Python list are [nat].
    - A numpy array is its shape together with its C-ordered (row-major)
      buffer, the order [ravel()] exposes.
    - An exception is a value of [PyError]; a computation that may raise and
      that consumes the random state is a function of type [Rand].
    - The random state is an oracle: the stream of raw draws it will hand
      out, and how many were consumed.
    - A double is a significand and an exponent in [Z]; the one float
      expression of the file is rounded as binary64 rounds it. *)

From Stdlib Require Import ZArith Lia String.
From stdpp Require Import base tactics option list list_numbers.

Local Open Scope Z_scope.

(** ** Exceptions *)

Inductive PyError : Type :=
| Exception_ (msg : string)       (* raise Exception(msg) *)
| AssertionError (msg : string)   (* a failed assert *)
| ValueError (msg : string)       (* raise ValueError(msg), also numpy's *)
| IndexError                      (* tuple index out of range *)
| TypeError                       (* min() of a single int *)
| ZeroDivisionError               (* 1 / len(axis) with an empty axis *)
| AttributeError (attr : string)  (* missing attribute of an object *)
| AxisError.                      (* numpy: axis out of bounds *)

Inductive result (A : Type) : Type :=
| Ok (a : A)
| Raise (e : PyError).
Arguments Ok {A} a.
Arguments Raise {A} e.

(** ** The random state *)

Record RandomState (F : Type) : Type := mkRandomState {
  uniform_stream : nat → Z;   (* raw integer draws, in the order consumed *)
  uniform_pos : nat;          (* how many integer draws were consumed *)
  normal_stream : nat → F;    (* standard normal draws, in the order consumed *)
  normal_pos : nat            (* how many normal draws were consumed *)
}.
Arguments mkRandomState {F} _ _ _ _.
Arguments uniform_stream {F} _ _.
Arguments uniform_pos {F} _.
Arguments normal_stream {F} _ _.
Arguments normal_pos {F} _.

(** A computation over a state [S] that may raise.  The state is returned
    on failure as well: an exception does not undo what was done before. *)
Definition M (S A : Type) : Type := S → result A * S.

Definition ret {S A} (a : A) : M S A := λ s, (Ok a, s).
Definition raise {S A} (e : PyError) : M S A := λ s, (Raise e, s).
Definition bind {S A B} (m : M S A) (k : A → M S B) : M S B :=
  λ s, match m s with
       | (Ok a, s') => k a s'
       | (Raise e, s') => (Raise e, s')
       end.

Notation "'let*' x ':=' m 'in' k" := (bind m (λ x, k))
  (at level 10, x name, m at level 100, k at level 200).

Definition get {S} : M S S := λ s, (Ok s, s).
Definition put {S} (s : S) : M S unit := λ _, (Ok (), s).

(** Computations that only use the random state. *)
Abbreviation Rand F := (M (RandomState F)).

(** [rng.randint(low, high)]: an integer of [[low, high)].  On an empty
    range numpy raises [ValueError], and its message names the upper bound
    alone when [low] is 0, which is the case of [rng.randint(n)]. *)
Definition randint2 {F} (low high : Z) : Rand F Z :=
  λ rng,
    if high <=? low
    then (Raise (ValueError (if low =? 0 then "high <= 0" else "low >= high")), rng)
    else (Ok (low + uniform_stream rng (uniform_pos rng) `mod` (high - low)),
          mkRandomState (uniform_stream rng) (S (uniform_pos rng))
                        (normal_stream rng) (normal_pos rng)).

(** [rng.randint(n)] is [rng.randint(0, n)]. *)
Definition randint {F} (n : Z) : Rand F Z := randint2 0 n.

(** ** Slices *)

Record slice : Type := Slice { start : Z; stop : Z }.

(** [a in axes] for a tuple of ints. *)
Definition py_in (a : Z) (axes : list Z) : bool := bool_decide (a ∈ axes).

(** The body of the loop of [_make_slices], from dimension number [a] on. *)
Fixpoint make_slices_from {F} (a : nat) (shape : list Z) (axes : list Z)
    (size : Z) : Rand F (list slice) :=
  match shape with
  | [] => ret []
  | s :: shape' =>
      let* sl :=
        (if py_in (Z.of_nat a) axes then
           if s <=? 1 then raise (ValueError "Cannot crossover on axis with size 1")
           else let* start := randint (s - size) in
                ret (Slice start (start + size))
         else ret (Slice 0 s)) in
      let* slices := make_slices_from (S a) shape' axes size in
      ret (sl :: slices)
  end.

Definition _make_slices {F} (shape : list Z) (axes : list Z) (size : Z)
    : Rand F (list slice) :=
  make_slices_from 0 shape axes size.

(** ** numpy arrays *)

(** Element arithmetic used by the operators: [np.zeros] and [+=]. *)
Class Numeric (F : Type) : Type := {
  zero : F;
  add : F → F → F
}.

Record ndarray (F : Type) : Type := mkarray {
  shape : list Z;   (* a.shape *)
  buf : list F      (* the elements in C order: a.ravel() *)
}.
Arguments mkarray {F} _ _.
Arguments shape {F} _.
Arguments buf {F} _.

Definition prodZ (l : list Z) : Z := foldr Z.mul 1 l.

(** The numpy invariant: non-negative extents, one element per index. *)
Definition wf_ndarray {F} (a : ndarray F) : Prop :=
  Forall (λ n, 0 ≤ n) (shape a) ∧ length (buf a) = Z.to_nat (prodZ (shape a)).

(** The multi-index of the element at offset [k] of the buffer. *)
Fixpoint unravel (shape : list Z) (k : Z) : list Z :=
  match shape with
  | [] => []
  | _ :: shape' => k `div` prodZ shape' :: unravel shape' (k `mod` prodZ shape')
  end.

(** The offset in the buffer of the element at multi-index [idx]. *)
Fixpoint ravel (shape idx : list Z) : Z :=
  match shape, idx with
  | _ :: shape', i :: idx' => i * prodZ shape' + ravel shape' idx'
  | _, _ => 0
  end.

Definition tabulate {A} (n : Z) (f : Z → A) : list A :=
  (λ k : nat, f (Z.of_nat k)) <$> seq 0 (Z.to_nat n).

Section ndarray_ops.
Context {F : Type} `{!Numeric F}.

Definition ndim (a : ndarray F) : Z := Z.of_nat (length (shape a)).
Definition size (a : ndarray F) : Z := prodZ (shape a).

(** [a[idx]] for a full multi-index. *)
Definition item (a : ndarray F) (idx : list Z) : F :=
  nth (Z.to_nat (ravel (shape a) idx)) (buf a) zero.

(** [np.zeros(shape)]. *)
Definition np_zeros (shape : list Z) : ndarray F :=
  mkarray shape (replicate (Z.to_nat (prodZ shape)) zero).

(** [np.array(a, copy=True)]. *)
Definition np_copy (a : ndarray F) : ndarray F := mkarray (shape a) (buf a).

(** [slice.indices(n)] for a slice without step: negative bounds count
    from the end, and both bounds are clipped to [[0, n]]. *)
Definition slice_bounds (sl : slice) (n : Z) : Z * Z :=
  let clip v := if v <? 0 then Z.max (v + n) 0 else Z.min v n in
  (clip (start sl), clip (stop sl)).

(** Shape of [a[tuple(slices)]], and the index of its first element. *)
Definition window_shape (shape : list Z) (slices : list slice) : list Z :=
  zip_with (λ n sl, Z.max 0 (snd (slice_bounds sl n) - fst (slice_bounds sl n)))
           shape slices.
Definition window_origin (shape : list Z) (slices : list slice) : list Z :=
  zip_with (λ n sl, fst (slice_bounds sl n)) shape slices.

(** Whether the multi-index [idx] is selected by [tuple(slices)]. *)
Fixpoint in_window (shape : list Z) (slices : list slice) (idx : list Z) : bool :=
  match shape, slices, idx with
  | n :: shape', sl :: slices', j :: idx' =>
      (fst (slice_bounds sl n) <=? j) && (j <? snd (slice_bounds sl n))
      && in_window shape' slices' idx'
  | _, _, _ => true
  end.

(** [a[tuple(slices)]], one slice per dimension. *)
Definition getitem_slices (a : ndarray F) (slices : list slice) : ndarray F :=
  let ws := window_shape (shape a) slices in
  let o := window_origin (shape a) slices in
  mkarray ws (tabulate (prodZ ws) (λ k, item a (zip_with Z.add o (unravel ws k)))).

(** [a[tuple(slices)] = v] for [v] of the shape of the window. *)
Definition setitem_slices (a : ndarray F) (slices : list slice) (v : ndarray F)
    : ndarray F :=
  let o := window_origin (shape a) slices in
  mkarray (shape a)
    (imap (λ k x, let idx := unravel (shape a) (Z.of_nat k) in
                  if in_window (shape a) slices idx
                  then item v (zip_with Z.sub idx o) else x)
          (buf a)).

(** [a + b] for arrays of one shape. *)
Definition np_add (a b : ndarray F) : ndarray F :=
  mkarray (shape a) (zip_with add (buf a) (buf b)).

(** [rng.normal(0, 1, size=shape)]. *)
Definition normal (shape : list Z) : Rand F (ndarray F) :=
  λ rng,
    let n := Z.to_nat (prodZ shape) in
    (Ok (mkarray shape
           ((λ k, normal_stream rng (normal_pos rng + k)%nat) <$> seq 0 n)),
     mkRandomState (uniform_stream rng) (uniform_pos rng)
                   (normal_stream rng) (normal_pos rng + n)%nat).

(** [t[i]] for a tuple and a Python index. *)
Definition normalize_index (len i : Z) : option Z :=
  if (0 <=? i) && (i <? len) then Some i
  else if (- len <=? i) && (i <? 0) then Some (i + len)
  else None.
Definition py_getitem (t : list Z) (i : Z) : option Z :=
  j ← normalize_index (Z.of_nat (length t)) i; t !! Z.to_nat j.

(** [np.roll]: the offsets per dimension are the sums of the shifts given
    for that dimension; an axis out of range is an [AxisError]. *)
Fixpoint roll_offsets (n : Z) (pairs : list (Z * Z)) (acc : list Z)
    : result (list Z) :=
  match pairs with
  | [] => Ok acc
  | (sh, ax) :: pairs' =>
      match normalize_index n ax with
      | None => Raise AxisError
      | Some i => roll_offsets n pairs' (alter (Z.add sh) (Z.to_nat i) acc)
      end
  end.

(** The index read for position [j] of a dimension of extent [n] rolled by
    [off]: numpy reduces the offset modulo [n or 1] and moves the element
    at [i] to [(i + offset) mod n]. *)
Definition roll_source (n off j : Z) : Z :=
  (j - off `mod` (if n =? 0 then 1 else n)) `mod` n.

Fixpoint roll_index (shape offs idx : list Z) : list Z :=
  match shape, offs, idx with
  | n :: shape', off :: offs', j :: idx' =>
      roll_source n off j :: roll_index shape' offs' idx'
  | _, _, _ => []
  end.

Definition roll_by (a : ndarray F) (offs : list Z) : ndarray F :=
  mkarray (shape a)
    (tabulate (prodZ (shape a))
       (λ k, item a (roll_index (shape a) offs (unravel (shape a) k)))).

(** [np.roll(a, shifts, axis=axes)], on the (shift, axis) pairs. *)
Definition np_roll (a : ndarray F) (pairs : list (Z * Z)) : result (ndarray F) :=
  match roll_offsets (ndim a) pairs (replicate (length (shape a)) 0) with
  | Ok offs => Ok (roll_by a offs)
  | Raise e => Raise e
  end.

(** [np.roll(a, shift)] without axis: the array is flattened, rolled and
    given its shape back. *)
Definition np_roll_flat (a : ndarray F) (shift : Z) : ndarray F :=
  mkarray (shape a) (buf (roll_by (mkarray [size a] (buf a)) [shift])).

End ndarray_ops.

(** ** Double precision

    Line 78 of [Crossover._apply_array] is evaluated in binary64: [/] on two
    ints gives the double nearest to the quotient, [**] is the power of the
    C library, taken here as the double nearest to the power, and [int]
    drops the fraction.  A positive finite double is written [(m, e)] for
    [m * 2 ^ e]; exponents are not bounded, which is exact for every
    magnitude an array size can reach. *)
Definition dyadic : Type := Z * Z.

(** Rounding to nearest, ties to even, to 53 significant bits. *)
Definition round53 (x : dyadic) : dyadic :=
  let t := Z.log2 x.1 - 52 in
  if t <=? 0 then x
  else
    let q := Z.shiftr x.1 t in
    let r := Z.land x.1 (Z.ones t) in
    let half := Z.shiftl 1 (t - 1) in
    if (half <? r) || ((r =? half) && Z.odd q) then (q + 1, x.2 + t) else (q, x.2 + t).

(** [a / b] on positive ints: the double nearest to the quotient.  The
    quotient is cut after 55 bits or more, and one more bit records whether
    anything was cut off. *)
Definition true_div (a b : Z) : dyadic :=
  let t := Z.max 0 (Z.log2 b - Z.log2 a + 55) in
  let q := Z.shiftl a t / b in
  let sticky := if Z.shiftl a t mod b =? 0 then 0 else 1 in
  round53 (2 * q + sticky, - t - 1).

(** The pair with an odd significand that stands for the same number. *)
Definition reduced (x : dyadic) : dyadic :=
  let t := Z.log2 (Z.land x.1 (- x.1)) in
  (Z.shiftr x.1 t, x.2 + t).

(** A power is enclosed between a lower and an upper bound, each kept to
    [bound_bits] significant bits: a lower bound is cut downwards, an upper
    bound upwards. *)
Definition bound_bits : Z := 256.

Definition cut_down (x : dyadic) : dyadic :=
  let t := Z.log2 x.1 + 1 - bound_bits in
  if t <=? 0 then x else (Z.shiftr x.1 t, x.2 + t).

Definition cut_up (x : dyadic) : dyadic :=
  let t := Z.log2 x.1 + 1 - bound_bits in
  if t <=? 0 then x
  else (Z.shiftr x.1 t + (if Z.land x.1 (Z.ones t) =? 0 then 0 else 1), x.2 + t).

Record enclosure : Type := mkenclosure { below : dyadic; above : dyadic }.

Definition enclosure_mul (x y : enclosure) : enclosure :=
  mkenclosure (cut_down ((below x).1 * (below y).1, (below x).2 + (below y).2))
              (cut_up ((above x).1 * (above y).1, (above x).2 + (above y).2)).

(** For a square root the significand is widened to twice [bound_bits] bits
    and an even exponent, and the integer root is taken. *)
Definition widened (x : dyadic) : dyadic :=
  let k := Z.max 0 (2 * bound_bits - Z.log2 x.1) in
  let k := if Z.odd (x.2 - k) then k + 1 else k in
  (Z.shiftl x.1 k, x.2 - k).

Definition enclosure_sqrt (x : enclosure) : enclosure :=
  mkenclosure (Z.sqrt (widened (below x)).1, (widened (below x)).2 / 2)
              (Z.sqrt_up (widened (above x)).1, (widened (above x)).2 / 2).

(** [x ^ p] by squaring. *)
Fixpoint enclosure_pow (x : enclosure) (p : positive) : enclosure :=
  match p with
  | xH => x
  | xO p' => let y := enclosure_pow x p' in enclosure_mul y y
  | xI p' => let y := enclosure_pow x p' in enclosure_mul x (enclosure_mul y y)
  end.

(** The enclosure of [x ** y] for positive doubles.  With [y = p * 2 ^ e]
    for an odd [p], the power is [x ^ p] squared [e] times when [e] is not
    negative, and the square root of [x ^ p] taken [- e] times when it is. *)
Definition pow_enclosure (x y : dyadic) : enclosure :=
  let y := reduced y in
  let b := enclosure_pow (mkenclosure x x) (Z.to_pos y.1) in
  if 0 <=? y.2
  then Z.iter y.2 (λ b, enclosure_mul b b) b
  else Z.iter (- y.2) enclosure_sqrt b.

(** [x ** y] on positive doubles: the double nearest to the power.  The
    bounds agree to some 200 bits; should they still round to different
    doubles, the lower one is taken. *)
Definition float_pow (x y : dyadic) : dyadic := round53 (below (pow_enclosure x y)).

(** [int(x)] on a positive double: its integer part. *)
Definition py_int (x : dyadic) : Z :=
  if 0 <=? x.2 then Z.shiftl x.1 x.2 else Z.shiftr x.1 (- x.2).

(** [int((n / 2) ** (1 / k))] for the ints [n] and [k], which line 78
    evaluates at [n = size + 1 >= 1] and [k = len(axis) >= 1]. *)
Definition int_half_pow (n k : Z) : Z :=
  py_int (float_pow (true_div n 2) (true_div 1 k)).

(** ** Collaborators outside this file

    [transforms.Fourrier] and [transforms.Clipping] belong to another module,
    and so does the transform from the standardized representation of a
    parameter to its value.  They are parameters of the development. *)
Class External (F : Type) : Type := {
  (* transforms.Fourrier(axes).forward(a) and .backward(a) *)
  Fourrier_forward : list Z → ndarray F → ndarray F;
  Fourrier_backward : list Z → ndarray F → ndarray F;
  (* transforms.Clipping(a_min=lo, a_max=hi).forward(a) *)
  Clipping_forward : option (ndarray F) → option (ndarray F) → ndarray F → ndarray F;
  (* the value of given bounds and shape that a standardized representation encodes *)
  value_of_standardized :
    option (ndarray F) * option (ndarray F) → list Z → list F → ndarray F
}.

(** ** Array parameters *)

(** Modelled from the spec: the class [Array] of data.py is missing.  An array
    parameter wraps a value, optional lower and upper bounds, and a parallel
    standardized (unconstrained) representation, related to the value by a
    transform of the class; the setters write the representation they are
    named after. *)
Record Array (F : Type) : Type := mkArray {
  _value : ndarray F;
  bounds : option (ndarray F) * option (ndarray F);
  standardized : list F
}.
Arguments mkArray {F} _ _ _.
Arguments _value {F} _.
Arguments bounds {F} _.
Arguments standardized {F} _.

(** Modelled from the spec: [p.value = v] sets the bounded array. *)
Definition set_value {F} (v : ndarray F) (p : Array F) : Array F :=
  mkArray v (bounds p) (standardized p).

(** Modelled from the spec:
    [p._internal_set_standardized_data(data, reference=r)] writes the
    unconstrained representation of [p].  The data are relative to the
    reference: they are added, element by element, to the standardized
    representation of [r], so that data of zeros leave a parameter that is
    its own reference as it was.  The value is derived again from the new
    representation, which keeps the two consistent. *)
Definition _internal_set_standardized_data {F} `{!Numeric F, !External F}
    (data : list F) (reference : Array F) (p : Array F) : Array F :=
  let new_standardized := zip_with add (standardized reference) data in
  mkArray (value_of_standardized (bounds p) (shape (_value p)) new_standardized)
          (bounds p) new_standardized.

(** ** The state an operator runs in *)

Record World (O F : Type) : Type := mkWorld {
  self : O;                          (* the operator and its sub-parameters *)
  random_state : RandomState F;      (* self.random_state *)
  arrays : list (Array F)            (* the parameters handed to apply *)
}.
Arguments mkWorld {O F} _ _ _.
Arguments self {O F} _.
Arguments random_state {O F} _.
Arguments arrays {O F} _.

Definition on_rng {O F A} (m : Rand F A) : M (World O F) A :=
  λ w, let (r, rng) := m (random_state w) in (r, mkWorld (self w) rng (arrays w)).
Definition on_self {O F A} (m : M O A) : M (World O F) A :=
  λ w, let (r, o) := m (self w) in (r, mkWorld o (random_state w) (arrays w)).
Definition get_self {O F} : M (World O F) O := λ w, (Ok (self w), w).
Definition get_arrays {O F} : M (World O F) (list (Array F)) :=
  λ w, (Ok (arrays w), w).
Definition of_option {S A} (e : PyError) (o : option A) : M S A :=
  match o with Some a => ret a | None => raise e end.
Definition of_result {S A} (r : result A) : M S A := λ s, (r, s).

(** [arrays[0].attr = ...]: the only write to a parameter. *)
Definition update_first {O F} (f : Array F → Array F) : M (World O F) unit :=
  λ w, match arrays w with
       | [] => (Raise IndexError, w)
       | p :: ps => (Ok (), mkWorld (self w) (random_state w) (f p :: ps))
       end.

(** Modelled from the spec: [Mutation.apply] of data.py is missing.  The
    default [apply] computes a new raw array with [_apply_array] and assigns
    it as the new value of [arrays[0]]. *)
Definition Mutation_apply {O F}
    (_apply_array : list (ndarray F) → M (World O F) (ndarray F))
    : M (World O F) unit :=
  let* arrays := get_arrays in
  let* new_value := _apply_array (_value <$> arrays) in
  update_first (set_value new_value).

(** ** Crossover *)

Module Crossover.

Record t : Type := mk {
  axis : option (list Z);   (* None, or the tuple of axes *)
  max_size : option Z;
  fft : bool
}.

Section defs.
Context {F : Type} `{!Numeric F, !External F}.

(** [(shape[a] - 1 for a in axis)], unpacked. *)
Fixpoint extents_minus_1 (shape axis : list Z) : result (list Z) :=
  match axis with
  | [] => Ok []
  | a :: axis' =>
      match py_getitem shape a with
      | None => Raise IndexError
      | Some s =>
          match extents_minus_1 shape axis' with
          | Ok l => Ok (s - 1 :: l)
          | Raise e => Raise e
          end
      end
  end.

(** [min(max_size, *xs)]; with nothing to unpack, [min] of one int is a
    [TypeError]. *)
Definition py_min (max_size : Z) (xs : list Z) : result Z :=
  match xs with
  | [] => Raise TypeError
  | _ => Ok (foldl Z.min max_size xs)
  end.

(** [tuple(range(len(shape))) if self.axis is None else self.axis]. *)
Definition resolve_axis (self : t) (shape : list Z) : list Z :=
  match axis self with
  | None => seqZ 0 (Z.of_nat (length shape))
  | Some axis => axis
  end.

(** Lines 76-80 of [_apply_array], the settings: the resolved axes and the
    drawn window size. *)
Definition settings (self : t) (a0 : ndarray F) : Rand F (list Z * Z) :=
  let shape := shape a0 in
  let axis := resolve_axis self shape in
  let* max_size :=
    match max_size self with
    | None => if Z.of_nat (length axis) =? 0 then raise ZeroDivisionError
              else ret (int_half_pow (size a0 + 1) (Z.of_nat (length axis)))
    | Some m => ret m
    end in
  let* xs := of_result (extents_minus_1 shape axis) in
  let* max_size := of_result (py_min max_size xs) in
  let* size := if max_size =? 1 then ret 1 else randint2 1 max_size in
  ret (axis, size).

Definition _apply_array (self : t) (arrays : list (ndarray F))
    : Rand F (ndarray F) :=
  match arrays with
  | [a0; a1] =>
      let* transf :=
        if fft self then
          match axis self with
          | None => raise (AttributeError "dim")   (* ndarray has no .dim *)
          | Some axis => ret (Some axis)
          end
        else ret None in
      let a0 := match transf with Some ax => Fourrier_forward ax a0 | None => a0 end in
      let a1 := match transf with Some ax => Fourrier_forward ax a1 | None => a1 end in
      if negb (bool_decide (shape a0 = shape a1))
      then raise (AssertionError "Individuals should have the same shape")
      else
        let* axis_size := settings self a0 in
        let* slices := _make_slices (shape a0) axis_size.1 axis_size.2 in
        let result := np_copy a0 in
        let result := setitem_slices result slices (getitem_slices a1 slices) in
        ret (match transf with
             | Some ax => Fourrier_backward ax result
             | None => result
             end)
  | _ => raise (Exception_ "Crossover can only be applied between 2 individuals")
  end.

Definition apply : M (World t F) unit :=
  let* self := get_self in
  let* arrays := get_arrays in
  let* new_value := on_rng (_apply_array self (_value <$> arrays)) in
  let* p := of_option IndexError (head arrays) in
  let bounds := bounds p in
  let new_value :=
    if fft self && (bool_decide (is_Some bounds.1) || bool_decide (is_Some bounds.2))
    then Clipping_forward bounds.1 bounds.2 new_value
    else new_value in
  update_first (set_value new_value).

End defs.
End Crossover.

(** ** Translation *)

Module Translation.

Record t : Type := mk {
  axis : option (list Z)
}.

Section defs.
Context {F : Type} `{!Numeric F}.

(** [[rng.randint(shape[a]) for a in axis]]. *)
Fixpoint draw_shifts (shape axis : list Z) : Rand F (list Z) :=
  match axis with
  | [] => ret []
  | a :: axis' =>
      let* s := of_option IndexError (py_getitem shape a) in
      let* shift := randint s in
      let* shifts := draw_shifts shape axis' in
      ret (shift :: shifts)
  end.

Definition _apply_array (self : t) (arrays : list (ndarray F))
    : Rand F (ndarray F) :=
  match arrays with
  | [data] =>
      let* axis :=
        match axis self with
        | None => raise (AttributeError "dim")   (* ndarray has no .dim *)
        | Some axis => ret axis
        end in
      let* shifts := draw_shifts (shape data) axis in
      of_result (np_roll data (zip shifts axis))
  | _ => raise (AssertionError "")
  end.

(** [Translation] does not override [apply]. *)
Definition apply : M (World t F) unit :=
  Mutation_apply (λ arrays,
    let* self := get_self in on_rng (_apply_array self arrays)).

End defs.
End Translation.

(** ** LocalGaussian *)

Module LocalGaussian.

Record t : Type := mk {
  axes : option (list Z);
  size : Z
}.

Section defs.
Context {F : Type} `{!Numeric F, !External F}.

(** [tuple(range(len(data.shape))) if self.axes is None else self.axes]. *)
Definition resolve_axes (self : t) (shape : list Z) : list Z :=
  match axes self with
  | None => seqZ 0 (Z.of_nat (length shape))
  | Some axes => axes
  end.

(** Lines 141-148 of [apply]: the array [data] when it is handed to the
    parameter. *)
Definition noisy_data (self : t) (value : ndarray F) : Rand F (ndarray F) :=
  let data := np_zeros (shape value) in
  let axis := resolve_axes self (shape data) in
  let size := size self in
  let* slices := _make_slices (shape data) axis size in
  let shape := shape (getitem_slices data slices) in
  let* noise := normal shape in
  ret (setitem_slices data slices (np_add (getitem_slices data slices) noise)).

Definition apply : M (World t F) unit :=
  let* self := get_self in
  let* arrays := get_arrays in
  match arrays with
  | [p] =>
      let* data := on_rng (noisy_data self (_value p)) in
      (* arrays[0]._internal_set_standardized_data(data.ravel(), reference=arrays[0]) *)
      update_first (_internal_set_standardized_data (buf data) p)
  | _ => raise (AssertionError "")
  end.

End defs.
End LocalGaussian.

(** ** TunedTranslation *)

(** Modelled from the spec: the class [Choice] of choice.py is missing.  A
    choice is a categorical distribution over a finite sequence of values
    with a mutable weight vector; [value] reads the category currently
    sampled, and a choice is built from a range of integers. *)
Record Choice (F : Type) : Type := mkChoice {
  choices : list Z;
  index : nat;              (* position of the category currently sampled *)
  weights : ndarray F       (* weights.value *)
}.
Arguments mkChoice {F} _ _ _.
Arguments choices {F} _.
Arguments index {F} _.
Arguments weights {F} _.

(** [range(start, stop)]. *)
Definition py_range (start stop : Z) : list Z := seqZ start (stop - start).

(** Modelled from the spec: [Choice(choices)], with initial weights that
    favour no category. *)
Definition Choice_init {F} `{!Numeric F} (choices : list Z) : Choice F :=
  mkChoice choices 0 (np_zeros [Z.of_nat (length choices)]).

(** Modelled from the spec: [c.value], the category currently sampled. *)
Definition Choice_value {F} (c : Choice F) : option Z := choices c !! index c.

(** The shape of an array, where [shape] names the operator's own field. *)
Abbreviation np_shape := shape.

Module TunedTranslation.

Record t (F : Type) : Type := mk {
  axis : Z;
  shape : list Z;
  shift : Choice F
}.
Arguments mk {F} _ _ _.
Arguments axis {F} _.
Arguments shape {F} _.
Arguments shift {F} _.

Section defs.
Context {F : Type} `{!Numeric F}.

(** [__init__]: [shift=Choice(range(1, shape[axis]))]. *)
Definition __init__ (axis : Z) (shape : list Z) : result (t F) :=
  match py_getitem shape axis with
  | None => Raise IndexError
  | Some n => Ok (mk axis shape (Choice_init (py_range 1 n)))
  end.

Definition _apply_array (arrays : list (ndarray F)) : M (t F) (ndarray F) :=
  match arrays with
  | [data] =>
      let* self := get in
      if negb (bool_decide (np_shape data = shape self))
      then raise (AssertionError "")
      else
        let* shift := of_option IndexError (Choice_value (TunedTranslation.shift self)) in
        (* update shift array: self.shift.weights.value = np.roll(shifts, shift) *)
        let shifts := weights (TunedTranslation.shift self) in
        let* _ := put (mk (axis self) (shape self)
                          (mkChoice (choices (TunedTranslation.shift self))
                                    (index (TunedTranslation.shift self))
                                    (np_roll_flat shifts shift))) in
        of_result (np_roll data [(shift, axis self)])
  | _ => raise (AssertionError "")
  end.

(** [TunedTranslation] does not override [apply]. *)
Definition apply : M (World (t F) F) unit :=
  Mutation_apply (λ arrays, on_self (_apply_array arrays)).

End defs.
End TunedTranslation.

(** ** Dispatch

    [op.apply(arrays)] runs the [apply] of the class of [op]. *)

Inductive Operator (F : Type) : Type :=
| OpCrossover (op : Crossover.t)
| OpTranslation (op : Translation.t)
| OpLocalGaussian (op : LocalGaussian.t)
| OpTunedTranslation (op : TunedTranslation.t F).
Arguments OpCrossover {F} op.
Arguments OpTranslation {F} op.
Arguments OpLocalGaussian {F} op.
Arguments OpTunedTranslation {F} op.

Definition run_as {O F} (inj : O → Operator F) (m : M (World O F) unit) (op : O)
    : M (World (Operator F) F) unit :=
  λ w, let (r, w') := m (mkWorld op (random_state w) (arrays w)) in
       (r, mkWorld (inj (self w')) (random_state w') (arrays w')).

Definition Operator_apply {F} `{!Numeric F, !External F}
    : M (World (Operator F) F) unit :=
  λ w, match self w with
       | OpCrossover op => run_as OpCrossover Crossover.apply op w
       | OpTranslation op => run_as OpTranslation Translation.apply op w
       | OpLocalGaussian op => run_as OpLocalGaussian LocalGaussian.apply op w
       | OpTunedTranslation op => run_as OpTunedTranslation TunedTranslation.apply op w
       end.

(** * Notions used to state the properties *)

(** The random state after [n] more integer draws. *)
Definition advance {F} (n : nat) (rng : RandomState F) : RandomState F :=
  mkRandomState (uniform_stream rng) (uniform_pos rng + n)
                (normal_stream rng) (normal_pos rng).

(** How many of the [n] dimensions from number [a] on are targeted: the
    number of integer draws the builder makes for them. *)
Fixpoint targeted_count (axes : list Z) (a n : nat) : nat :=
  match n with
  | O => 0
  | S n' => (if py_in (Z.of_nat a) axes then 1 else 0) + targeted_count axes (S a) n'
  end.

(** [idx] is a valid multi-index of an array of shape [shape]. *)
Definition in_bounds (shape idx : list Z) : Prop :=
  Forall2 (λ n j, 0 ≤ j < n) shape idx.

(** Offsets that cancel: their sum is a multiple of the extent. *)
Definition cancelling (shape o1 o2 : list Z) : Prop :=
  length o1 = length shape ∧ length o2 = length shape ∧
  ∀ i n x y, shape !! i = Some n → o1 !! i = Some x → o2 !! i = Some y →
             (x + y) `mod` n = 0.

(** The (shift, axis) pairs that undo [pairs]: the extent of the axis minus
    the shift, along the same axis. *)
Definition opposite (shape : list Z) (pairs : list (Z * Z)) : list (Z * Z) :=
  (λ p, (default 0 (py_getitem shape p.2) - p.1, p.2)) <$> pairs.

(** The shifts opposite to [v] along [axes]. *)
Definition opposite_shifts (shape axes v : list Z) : list Z :=
  zip_with (λ a x, default 0 (py_getitem shape a) - x) axes v.

(** The maximal window size of [Crossover] before clamping (line 78), where
    the axes are not empty. *)
Definition resolved_max_size {F} (self : Crossover.t)
    (a0 : ndarray F) : Z :=
  match Crossover.max_size self with
  | None => int_half_pow (size a0 + 1)
              (Z.of_nat (length (Crossover.resolve_axis self (shape a0))))
  | Some m => m
  end.

(** The default maximal size as the specification writes it,
    [floor((n / 2) ^ (1 / k))] in exact arithmetic: the number of integers
    [m >= 1] with [2 * m ^ k <= n]. *)
Definition spec_half_root (n k : Z) : Z :=
  Z.of_nat (length (filter (λ m, 2 * m ^ k ≤ n) (seqZ 1 n))).

(** The draw of the normal stream that lands on the index [idx] of the
    window. *)
Definition noise_at {F} (rng : RandomState F) (shape : list Z)
    (slices : list slice) (idx : list Z) : F :=
  normal_stream rng
    (normal_pos rng +
     Z.to_nat (ravel (window_shape shape slices)
                     (zip_with Z.sub idx (window_origin shape slices))))%nat.

(** [m] does not write to the parameters. *)
Definition reads_only {O F A} (m : M (World O F) A) : Prop :=
  ∀ w r w', m w = (r, w') → arrays w' = arrays w.

(** When [m] fails, the parameters are as they were. *)
Definition fails_clean {O F A} (m : M (World O F) A) : Prop :=
  ∀ w e w', m w = (Raise e, w') → arrays w' = arrays w.

(** Every element of a standardized representation outside the window is
    what it was. *)
Definition outside_window_unchanged {F} (shape : list Z) (slices : list slice)
    (before after : list F) : Prop :=
  ∀ k : nat, (k < length before)%nat →
    in_window shape slices (unravel shape (Z.of_nat k)) = false →
    after !! k = before !! k.

(** * Concrete inputs *)

#[global] Instance Numeric_Z : Numeric Z := {| zero := 0; add := Z.add |}.

(** A stand-in for the collaborators, used by the examples only: transforms
    that do nothing, and a value that is its standardized representation. *)
#[global] Instance External_Z : External Z := {|
  Fourrier_forward := λ _ a, a;
  Fourrier_backward := λ _ a, a;
  Clipping_forward := λ _ _ a, a;
  value_of_standardized := λ _ shape data, mkarray shape data
|}.

(** A random state whose integer draws are all 1 and whose normal draws are
    10, 11, 12, ... *)
Definition rng0 : RandomState Z :=
  mkRandomState (λ _, 1) 0 (λ n, 10 + Z.of_nat n) 0.

Definition A44 : ndarray Z := mkarray [4; 4] (seqZ 0 16).
Definition B44 : ndarray Z := mkarray [4; 4] (seqZ 100 16).
Definition A13 : ndarray Z := mkarray [1; 3] [1; 2; 3].
Definition B13 : ndarray Z := mkarray [1; 3] [4; 5; 6].
Definition A5 : ndarray Z := mkarray [5] [1; 2; 3; 4; 5].
Definition P4 : Array Z := mkArray (mkarray [4] [1; 2; 3; 4]) (None, None) [5; 6; 7; 8].

Definition tuned0 : TunedTranslation.t Z :=
  TunedTranslation.mk 1 [4; 4] (mkChoice [1; 2; 3] 1 (mkarray [3] [7; 8; 9])).

Definition world3 : World (Operator Z) Z :=
  mkWorld (OpCrossover (Crossover.mk None None false)) rng0
          [mkArray A44 (None, None) []; mkArray B44 (None, None) [];
           mkArray A44 (None, None) []].

Definition world_gauss : World LocalGaussian.t Z :=
  mkWorld (LocalGaussian.mk None 1) rng0 [P4].

(** Tactics for the concrete inputs. *)

(** Every axis of a list indexes the array. *)
Ltac forall_range :=
  repeat (constructor; [unfold ndim; simpl; lia |]); constructor.

(** A concrete array satisfies the numpy invariant. *)
Ltac valid_array :=
  split; [repeat (constructor; [lia |]); constructor | reflexivity].

(** * The operators on the concrete inputs *)

Example make_slices_4x4 :
  _make_slices [4; 4] [1] 2 rng0 = (Ok [Slice 0 4; Slice 1 3], advance 1 rng0).
Proof. reflexivity. Qed.

Example make_slices_extent_1 :
  (_make_slices [4; 1] [1] 2 rng0).1 =
    Raise (ValueError "Cannot crossover on axis with size 1").
Proof. reflexivity. Qed.

(** The default maximal size: [int(8.5 ** 0.5)], [int(8.5 ** 1.0)], and the
    cube roots of 8, 27, 64 and 125, which binary64 gives as 2.0, 3.0,
    3.9999999999999996 and 4.999999999999999. *)
Example default_sizes :
  int_half_pow 17 2 = 2 ∧ int_half_pow 17 1 = 8 ∧
  (λ n, int_half_pow n 3) <$> [16; 54; 128; 250] = [2; 3; 3; 4] ∧
  (λ n, spec_half_root n 3) <$> [16; 54; 128; 250] = [2; 3; 4; 5].
Proof. vm_compute. done. Qed.

(** With no maximal size configured on 4 x 4 arrays and one axis, the
    default 8 is clamped to 3 and the size drawn is 2. *)
Example crossover_default_size :
  Crossover.settings (Crossover.mk (Some [1]) None false) A44 rng0 =
    (Ok ([1], 2), advance 1 rng0).
Proof. vm_compute. done. Qed.

(** Columns 1 and 2 come from the second array. *)
Example crossover_columns :
  (Crossover._apply_array (Crossover.mk (Some [1]) (Some 3) false) [A44; B44] rng0).1 =
    Ok (mkarray [4; 4] [0; 101; 102; 3; 4; 105; 106; 7; 8; 109; 110; 11; 12; 113; 114; 15]).
Proof. reflexivity. Qed.

Example crossover_three_arrays :
  (Crossover._apply_array (Crossover.mk None None false) [A44; B44; A44] rng0).1 =
    Raise (Exception_ "Crossover can only be applied between 2 individuals").
Proof. reflexivity. Qed.

Example crossover_spectral_all_axes :
  (Crossover._apply_array (Crossover.mk None (Some 2) true) [A44; B44] rng0).1 =
    Raise (AttributeError "dim").
Proof. reflexivity. Qed.

(** A successful [apply] writes the new value into [arrays[0]]. *)
Example crossover_apply_writes :
  _value <$> arrays (Crossover.apply
                       (mkWorld (Crossover.mk (Some [1]) (Some 3) false) rng0
                                [mkArray A44 (None, None) []; mkArray B44 (None, None) []])).2 =
    [mkarray [4; 4] [0; 101; 102; 3; 4; 105; 106; 7; 8; 109; 110; 11; 12; 113; 114; 15];
     B44].
Proof. reflexivity. Qed.

Example roll_1d : np_roll A5 [(2, 0)] = Ok (mkarray [5] [4; 5; 1; 2; 3]).
Proof. reflexivity. Qed.

Example translation_rows_and_columns :
  (Translation._apply_array (Translation.mk (Some [0; 1])) [A44] rng0).1 =
    Ok (mkarray [4; 4] [15; 12; 13; 14; 3; 0; 1; 2; 7; 4; 5; 6; 11; 8; 9; 10]).
Proof. reflexivity. Qed.

Example translation_all_axes :
  (Translation._apply_array (Translation.mk None) [A44] rng0).1 =
    Raise (AttributeError "dim").
Proof. reflexivity. Qed.

Example local_gaussian_standardized :
  standardized <$> arrays (LocalGaussian.apply world_gauss).2 = [[5; 16; 7; 8]].
Proof. reflexivity. Qed.

Example tuned_translation_weights :
  weights (TunedTranslation.shift (TunedTranslation._apply_array [A44] tuned0).2) =
    mkarray [3] [8; 9; 7].
Proof. reflexivity. Qed.

(** * Lemmas and theorems *)

(** ** The monad *)

Lemma bind_Ok {S A B} (m : M S A) (k : A → M S B) s b s' :
  bind m k s = (Ok b, s') → ∃ a s1, m s = (Ok a, s1) ∧ k a s1 = (Ok b, s').
Proof.
  unfold bind. destruct (m s) as [[a|e] s1]; [eauto | discriminate].
Qed.

Lemma bind_Raise {S A B} (m : M S A) (k : A → M S B) s e s' :
  bind m k s = (Raise e, s') →
  m s = (Raise e, s') ∨ ∃ a s1, m s = (Ok a, s1) ∧ k a s1 = (Raise e, s').
Proof.
  unfold bind. destruct (m s) as [[a|e0] s1]; [eauto | left; congruence].
Qed.

Lemma bind_run {S A B} (m : M S A) (k : A → M S B) s a s1 :
  m s = (Ok a, s1) → bind m k s = k a s1.
Proof. unfold bind. by intros ->. Qed.

Lemma bind_fail {S A B} (m : M S A) (k : A → M S B) s e s1 :
  m s = (Raise e, s1) → bind m k s = (Raise e, s1).
Proof. unfold bind. by intros ->. Qed.

(** ** Random draws *)

Lemma advance_0 {F} (rng : RandomState F) : advance 0 rng = rng.
Proof. destruct rng. unfold advance. simpl. f_equal. lia. Qed.

Lemma advance_S {F} n (rng : RandomState F) :
  advance n (advance 1 rng) = advance (S n) rng.
Proof. unfold advance. simpl. f_equal. lia. Qed.

Lemma randint2_Ok {F} low high (rng : RandomState F) :
  low < high →
  randint2 low high rng =
    (Ok (low + uniform_stream rng (uniform_pos rng) `mod` (high - low)),
     advance 1 rng).
Proof.
  intros Hlt. unfold randint2, advance.
  destruct (Z.leb_spec high low); [lia |].
  do 2 f_equal. lia.
Qed.

Lemma randint2_Raise {F} low high (rng : RandomState F) :
  low ≠ 0 → high ≤ low →
  randint2 low high rng = (Raise (ValueError "low >= high"), rng).
Proof.
  intros Hlow Hle. unfold randint2. destruct (Z.leb_spec high low); [| lia].
  by destruct (Z.eqb_spec low 0).
Qed.

Lemma randint_Raise {F} n (rng : RandomState F) :
  n ≤ 0 → randint n rng = (Raise (ValueError "high <= 0"), rng).
Proof.
  intros Hle. unfold randint, randint2. by destruct (Z.leb_spec n 0); [| lia].
Qed.

Lemma randint2_inv {F} low high (rng rng' : RandomState F) v :
  randint2 low high rng = (Ok v, rng') →
  low < high ∧ rng' = advance 1 rng ∧
  v = low + uniform_stream rng (uniform_pos rng) `mod` (high - low) ∧
  low ≤ v < high.
Proof.
  intros H. destruct (Z.le_gt_cases high low) as [Hle|Hlt].
  - unfold randint2 in H. destruct (Z.leb_spec high low); [discriminate | lia].
  - rewrite randint2_Ok in H by done. simplify_eq.
    repeat split; try done.
    + pose proof (Z.mod_pos_bound (uniform_stream rng (uniform_pos rng)) (high - low)). lia.
    + pose proof (Z.mod_pos_bound (uniform_stream rng (uniform_pos rng)) (high - low)). lia.
Qed.

(** ** The window builder *)

Lemma py_in_spec a axes : py_in a axes = true ↔ a ∈ axes.
Proof. unfold py_in. by rewrite bool_decide_eq_true. Qed.

Lemma make_slices_from_length {F} shape : ∀ a axes size (rng rng' : RandomState F) slices,
  make_slices_from a shape axes size rng = (Ok slices, rng') →
  length slices = length shape.
Proof.
  induction shape as [|s shape IH]; intros a axes size rng rng' slices H; simpl in H.
  - unfold ret in H. by simplify_eq.
  - apply bind_Ok in H as (sl & rng1 & _ & H).
    apply bind_Ok in H as (sls & rng2 & H & Hret).
    unfold ret in Hret. simplify_eq. simpl. f_equal. eauto.
Qed.

(** What the builder returns for each dimension when it succeeds. *)
Lemma make_slices_from_inv {F} shape : ∀ a axes size (rng rng' : RandomState F) slices,
  make_slices_from a shape axes size rng = (Ok slices, rng') →
  rng' = advance (targeted_count axes a (length shape)) rng ∧
  ∀ i s, shape !! i = Some s →
    ∃ sl, slices !! i = Some sl ∧
      if py_in (Z.of_nat (a + i)) axes then
        1 < s ∧ 0 < s - size ∧
        start sl = uniform_stream rng (uniform_pos rng + targeted_count axes a i)
                     `mod` (s - size) ∧
        stop sl = start sl + size
      else sl = Slice 0 s.
Proof.
  induction shape as [|s shape IH]; intros a axes size rng rng' slices H; simpl in H.
  - unfold ret in H. simplify_eq. split; [by rewrite advance_0 | intros i s Hi; by destruct i].
  - apply bind_Ok in H as (sl & rng1 & Hsl & H).
    apply bind_Ok in H as (sls & rng2 & H & Hret).
    unfold ret in Hret. simplify_eq.
    apply IH in H as [-> Hrest]. simpl targeted_count.
    destruct (py_in (Z.of_nat a) axes) eqn:Hin.
    + destruct (Z.leb_spec s 1); [discriminate |].
      apply bind_Ok in Hsl as (st & rng2 & Hst & Hret). unfold ret in Hret. simplify_eq.
      apply randint2_inv in Hst as (Hlt & -> & -> & Hrange).
      split; [by rewrite advance_S |].
      intros [|i] s' Hi; simpl in Hi.
      * simplify_eq. eexists; split; [done |].
        replace (a + 0)%nat with a by lia. rewrite Hin. simpl.
        replace (uniform_pos rng + 0)%nat with (uniform_pos rng) by lia.
        replace (s' - size - 0) with (s' - size) by lia.
        repeat split; lia.
      * destruct (Hrest i s' Hi) as (sl & Hsl & Hspec).
        exists sl; split; [done |].
        replace (a + S i)%nat with (S a + i)%nat by lia.
        destruct (py_in (Z.of_nat (S a + i)) axes); [| done].
        destruct Hspec as (? & ? & Hs & ?). repeat split; try done.
        rewrite Hs. simpl. rewrite Hin. do 2 f_equal. lia.
    + unfold ret in Hsl. simplify_eq. split; [done |].
      intros [|i] s' Hi; simpl in Hi.
      * simplify_eq. eexists; split; [done |].
        replace (a + 0)%nat with a by lia. by rewrite Hin.
      * destruct (Hrest i s' Hi) as (sl & Hsl & Hspec).
        exists sl; split; [done |].
        replace (a + S i)%nat with (S a + i)%nat by lia.
        cbn [targeted_count]. rewrite Hin. done.
Qed.

(** The builder succeeds when every targeted extent is at least 2 and
    exceeds the window size. *)
Lemma make_slices_from_Ok {F} shape : ∀ a axes size (rng : RandomState F),
  (∀ i s, shape !! i = Some s → Z.of_nat (a + i) ∈ axes → 1 < s ∧ size < s) →
  ∃ slices rng', make_slices_from a shape axes size rng = (Ok slices, rng').
Proof.
  induction shape as [|s shape IH]; intros a axes size rng Hpre; simpl.
  - by eexists _, _.
  - destruct (py_in (Z.of_nat a) axes) eqn:Hin.
    + apply py_in_spec in Hin.
      destruct (Hpre 0%nat s eq_refl) as [Hs Hsize].
      { by replace (a + 0)%nat with a by lia. }
      destruct (Z.leb_spec s 1); [lia |].
      destruct (IH (S a) axes size (advance 1 rng)) as (sls & rng' & Hsls).
      { intros i s' Hi Hax. apply (Hpre (S i)); [done |].
        by replace (a + S i)%nat with (S a + i)%nat by lia. }
      eexists _, _.
      erewrite bind_run; last first.
      { erewrite bind_run; [| apply randint2_Ok; lia]. done. }
      erewrite bind_run; [| exact Hsls]. done.
    + destruct (IH (S a) axes size rng) as (sls & rng' & Hsls).
      { intros i s' Hi Hax. apply (Hpre (S i)); [done |].
        by replace (a + S i)%nat with (S a + i)%nat by lia. }
      eexists _, _.
      erewrite bind_run; [| done].
      erewrite bind_run; [| exact Hsls]. done.
Qed.

(** The builder raises its own error when a targeted extent is at most 1 and
    no draw before it is rejected. *)
Lemma make_slices_from_Raise {F} shape : ∀ a axes size (rng : RandomState F),
  (∀ i s, shape !! i = Some s → Z.of_nat (a + i) ∈ axes → s ≤ 1 ∨ size < s) →
  (∃ i s, shape !! i = Some s ∧ Z.of_nat (a + i) ∈ axes ∧ s ≤ 1) →
  (make_slices_from a shape axes size rng).1 =
    Raise (ValueError "Cannot crossover on axis with size 1").
Proof.
  induction shape as [|s shape IH]; intros a axes size rng Hpre (i & s' & Hi & Hax & Hs').
  - by destruct i.
  - assert (Htail : ∀ i' (rng1 : RandomState F), i = S i' →
      (make_slices_from (S a) shape axes size rng1).1 =
        Raise (ValueError "Cannot crossover on axis with size 1")).
    { intros i' rng1 ->. apply IH.
      - intros j sj Hj Hjax. apply (Hpre (S j)); [done |].
        by replace (a + S j)%nat with (S a + j)%nat by lia.
      - exists i', s'. split; [done |]. split; [| done].
        by replace (S a + i')%nat with (a + S i')%nat by lia. }
    cbn [make_slices_from]. destruct (py_in (Z.of_nat a) axes) eqn:Hin.
    + destruct (Z.leb_spec s 1) as [Hle|Hgt]; [done |].
      destruct i as [|i]; [simpl in Hi; simplify_eq; lia |].
      apply py_in_spec in Hin.
      destruct (Hpre 0%nat s eq_refl) as [? | Hsize];
        [by replace (a + 0)%nat with a by lia | lia |].
      erewrite bind_run; last first.
      { erewrite bind_run; [| apply randint2_Ok; lia]. done. }
      unfold bind at 1.
      specialize (Htail i (advance 1 rng) eq_refl).
      destruct (make_slices_from (S a) shape axes size (advance 1 rng)) as [[sls|e] rng'];
        [discriminate | done].
    + destruct i as [|i].
      { simpl in Hi. simplify_eq. replace (a + 0)%nat with a in Hax by lia.
        apply py_in_spec in Hax. congruence. }
      erewrite bind_run; [| done].
      unfold bind at 1.
      specialize (Htail i rng eq_refl).
      destruct (make_slices_from (S a) shape axes size rng) as [[sls|e] rng'];
        [discriminate | done].
Qed.

(** ** Multi-indices and offsets *)

Lemma prodZ_nonneg shape : Forall (λ n, 0 ≤ n) shape → 0 ≤ prodZ shape.
Proof.
  induction 1 as [|n shape Hn _ IH]; simpl; [lia | nia].
Qed.

Lemma in_bounds_length shape idx : in_bounds shape idx → length idx = length shape.
Proof. intros H. symmetry. by eapply Forall2_length. Qed.

Lemma in_bounds_nonneg shape idx :
  in_bounds shape idx → Forall (λ n, 0 ≤ n) shape.
Proof.
  induction 1 as [|n j shape idx Hj _ IH]; constructor; [lia | done].
Qed.

Lemma ravel_bounds shape idx :
  in_bounds shape idx → 0 ≤ ravel shape idx < prodZ shape.
Proof.
  induction 1 as [|n j shape idx Hj _ IH]; simpl; [lia | nia].
Qed.

Lemma unravel_ravel shape idx :
  in_bounds shape idx → unravel shape (ravel shape idx) = idx.
Proof.
  induction 1 as [|n j shape idx Hj Hrest IH]; simpl; [done |].
  pose proof (ravel_bounds _ _ Hrest) as Hr.
  assert (Hdiv : (j * prodZ shape + ravel shape idx) `div` prodZ shape = j).
  { symmetry. apply (Z.div_unique_pos _ _ j (ravel shape idx)); lia. }
  assert (Hmod : (j * prodZ shape + ravel shape idx) `mod` prodZ shape = ravel shape idx).
  { symmetry. apply (Z.mod_unique_pos _ _ j (ravel shape idx)); lia. }
  rewrite Hdiv, Hmod, IH. done.
Qed.

Lemma unravel_in_bounds shape : ∀ k,
  Forall (λ n, 0 ≤ n) shape → 0 ≤ k < prodZ shape → in_bounds shape (unravel shape k).
Proof.
  induction shape as [|n shape IH]; intros k Hsh Hk; simpl; [constructor |].
  apply Forall_cons in Hsh as [Hn Hsh]. simpl in Hk.
  pose proof (prodZ_nonneg _ Hsh) as HP.
  assert (0 < prodZ shape) as HPpos by nia.
  constructor.
  - split; [apply Z.div_pos; lia |].
    apply Z.div_lt_upper_bound; [lia | nia].
  - apply IH; [done |]. apply Z.mod_pos_bound. lia.
Qed.

Lemma ravel_unravel shape : ∀ k,
  Forall (λ n, 0 ≤ n) shape → 0 ≤ k < prodZ shape → ravel shape (unravel shape k) = k.
Proof.
  induction shape as [|n shape IH]; intros k Hsh Hk; simpl in *; [lia |].
  apply Forall_cons in Hsh as [Hn Hsh].
  pose proof (prodZ_nonneg _ Hsh) as HP.
  assert (0 < prodZ shape) as HPpos by nia.
  rewrite IH; [| done | apply Z.mod_pos_bound; lia].
  pose proof (Z.div_mod k (prodZ shape)). lia.
Qed.

(** ** Tabulated buffers *)

Lemma tabulate_length {A} n (f : Z → A) : length (tabulate n f) = Z.to_nat n.
Proof. unfold tabulate. by rewrite length_fmap, length_seq. Qed.

Lemma tabulate_lookup {A} n (f : Z → A) (i : nat) :
  (i < Z.to_nat n)%nat → tabulate n f !! i = Some (f (Z.of_nat i)).
Proof.
  intros Hi. unfold tabulate. rewrite list_lookup_fmap, lookup_seq_lt by done. done.
Qed.

Lemma tabulate_nth {A} n (f : Z → A) k d :
  0 ≤ k < n → nth (Z.to_nat k) (tabulate n f) d = f k.
Proof.
  intros Hk. rewrite nth_lookup, tabulate_lookup by lia. simpl. f_equal. lia.
Qed.

Section ndarray_lemmas.
Context {F : Type} `{!Numeric F}.

Lemma item_tabulate shape (f : Z → F) idx :
  in_bounds shape idx →
  item (mkarray shape (tabulate (prodZ shape) f)) idx = f (ravel shape idx).
Proof.
  intros Hb. unfold item. simpl. apply tabulate_nth. by apply ravel_bounds.
Qed.

Lemma item_unravel (a : ndarray F) (k : nat) x :
  wf_ndarray a → buf a !! k = Some x →
  item a (unravel (shape a) (Z.of_nat k)) = x.
Proof.
  intros [Hsh Hlen] Hk. unfold item.
  apply lookup_lt_Some in Hk as Hlt.
  rewrite ravel_unravel by (done || lia).
  rewrite Nat2Z.id, nth_lookup, Hk. done.
Qed.

Lemma np_copy_id (a : ndarray F) : np_copy a = a.
Proof. by destruct a. Qed.

End ndarray_lemmas.

(** ** Windows *)

Section window_lemmas.
Context {F : Type} `{!Numeric F}.

(** An index inside the window, taken relative to the origin of the
    window, is a valid index of the window. *)
Lemma in_window_relative shape : ∀ slices idx,
  length slices = length shape → length idx = length shape →
  in_window shape slices idx = true →
  in_bounds (window_shape shape slices)
            (zip_with Z.sub idx (window_origin shape slices)) ∧
  zip_with Z.add (window_origin shape slices)
           (zip_with Z.sub idx (window_origin shape slices)) = idx.
Proof.
  induction shape as [|n shape IH]; intros [|sl slices] [|j idx] Hsl Hidx Hin;
    simplify_eq/=; [by split; [constructor |] |].
  apply andb_true_iff in Hin as [Hin Hrest].
  apply andb_true_iff in Hin as [Hlo Hhi].
  apply Z.leb_le in Hlo. apply Z.ltb_lt in Hhi.
  destruct (IH slices idx) as [Hb Heq]; [done.. |].
  split.
  - constructor; [lia | done].
  - unfold window_origin in *. rewrite Heq. f_equal. lia.
Qed.

(** Reading a window of [b] and writing it at the same place of [a]. *)
Lemma setitem_getitem_lookup (a b : ndarray F) slices (k : nat) x :
  wf_ndarray b → shape a = shape b → length slices = length (shape a) →
  buf a !! k = Some x → length (buf a) = length (buf b) →
  buf (setitem_slices a slices (getitem_slices b slices)) !! k =
    if in_window (shape a) slices (unravel (shape a) (Z.of_nat k))
    then buf b !! k else Some x.
Proof.
  intros Hwf Hshape Hlen Hk Hbuf. unfold setitem_slices. simpl.
  rewrite list_lookup_imap, Hk. simpl.
  destruct (in_window _ _ _) eqn:Hin; [| done].
  apply lookup_lt_Some in Hk as Hlt.
  destruct (lookup_lt_is_Some_2 (buf b) k) as [y Hy]; [lia |].
  rewrite Hy. f_equal.
  destruct Hwf as [Hnn Hsize].
  assert (Hb : in_bounds (shape b) (unravel (shape b) (Z.of_nat k))).
  { apply unravel_in_bounds; [done | lia]. }
  rewrite Hshape in *.
  destruct (in_window_relative _ _ _ Hlen (in_bounds_length _ _ Hb) Hin) as [Hrel Hadd].
  unfold getitem_slices. rewrite item_tabulate by done.
  rewrite unravel_ravel, Hadd by done.
  apply item_unravel; done.
Qed.

Lemma setitem_getitem_same (a : ndarray F) slices :
  wf_ndarray a → length slices = length (shape a) →
  setitem_slices a slices (getitem_slices a slices) = a.
Proof.
  intros Hwf Hlen. destruct a as [sh b]. unfold setitem_slices at 1. simpl.
  f_equal. apply list_eq. intros k.
  destruct (b !! k) as [x|] eqn:Hk.
  - pose proof (setitem_getitem_lookup (mkarray sh b) (mkarray sh b) slices k x
                  Hwf eq_refl Hlen Hk eq_refl) as H.
    unfold setitem_slices in H. simpl in H. rewrite H.
    destruct (in_window _ _ _); done.
  - rewrite list_lookup_imap, Hk. done.
Qed.

Lemma setitem_shape (a v : ndarray F) slices :
  shape (setitem_slices a slices v) = shape a.
Proof. done. Qed.

Lemma setitem_length (a v : ndarray F) slices :
  length (buf (setitem_slices a slices v)) = length (buf a).
Proof. unfold setitem_slices. simpl. by rewrite length_imap. Qed.

End window_lemmas.

(** ** Crossover: the window size *)

Lemma py_getitem_is_Some (t : list Z) i :
  - Z.of_nat (length t) ≤ i < Z.of_nat (length t) → is_Some (py_getitem t i).
Proof.
  intros Hi. unfold py_getitem, normalize_index.
  destruct (Z.leb_spec 0 i), (Z.ltb_spec i (Z.of_nat (length t))); simpl;
    try (apply lookup_lt_is_Some_2; lia).
  - lia.
  - destruct (Z.leb_spec (- Z.of_nat (length t)) i), (Z.ltb_spec i 0); simpl;
      try lia; apply lookup_lt_is_Some_2; lia.
  - lia.
Qed.

Lemma foldl_min_le m xs :
  foldl Z.min m xs ≤ m ∧ Forall (λ x, foldl Z.min m xs ≤ x) xs.
Proof.
  revert m. induction xs as [|x xs IH]; intros m; simpl; [split; [lia | constructor] |].
  destruct (IH (Z.min m x)) as [Hm Hxs]. split; [lia |].
  constructor; [lia | done].
Qed.

Lemma foldl_min_ge lo m xs :
  lo ≤ m → Forall (λ x, lo ≤ x) xs → lo ≤ foldl Z.min m xs.
Proof.
  intros Hm Hxs. revert m Hm.
  induction Hxs as [|x xs Hx _ IH]; intros m Hm; simpl; [done |].
  apply IH. lia.
Qed.

Lemma foldl_min_elem m xs : foldl Z.min m xs = m ∨ foldl Z.min m xs ∈ xs.
Proof.
  revert m. induction xs as [|x xs IH]; intros m; simpl; [by left |].
  destruct (IH (Z.min m x)) as [Heq | Hin].
  - rewrite Heq. destruct (Z.min_spec m x) as [[_ ->] | [_ ->]]; [by left | right; left].
  - right. by right.
Qed.

Section crossover_size.
Context {F : Type} `{!Numeric F, !External F}.

Lemma extents_minus_1_Ok shape axis xs :
  Crossover.extents_minus_1 shape axis = Ok xs ↔
  Forall2 (λ a x, py_getitem shape a = Some (x + 1)) axis xs.
Proof.
  revert xs. induction axis as [|a axis IH]; intros xs; simpl.
  - split; [intros; simplify_eq; constructor | by inversion 1].
  - destruct (py_getitem shape a) as [s|] eqn:Hs.
    + destruct (Crossover.extents_minus_1 shape axis) as [l|e] eqn:Hl.
      * split.
        -- intros ?; simplify_eq. constructor; [rewrite Hs; f_equal; lia | by apply IH].
        -- inversion 1 as [|? x ? l' Hx Hrest]; simplify_eq.
           apply IH in Hrest. simplify_eq. do 2 f_equal. lia.
      * split; [done |].
        inversion 1 as [|? x ? l' Hx Hrest]; simplify_eq.
        apply IH in Hrest. done.
    + split; [done |]. inversion 1; simplify_eq.
Qed.

Lemma extents_minus_1_total shape axis :
  Forall (λ a, is_Some (py_getitem shape a)) axis →
  ∃ xs, Crossover.extents_minus_1 shape axis = Ok xs.
Proof.
  induction 1 as [|a axis [s Hs] _ [xs IH]]; simpl; [by eexists |].
  rewrite Hs, IH. by eexists.
Qed.

Lemma settings_unfold self (a0 : ndarray F) xs rng :
  Crossover.resolve_axis self (shape a0) ≠ [] →
  Crossover.extents_minus_1 (shape a0) (Crossover.resolve_axis self (shape a0)) = Ok xs →
  Crossover.settings self a0 rng =
    (let* size := (let clamped := foldl Z.min (resolved_max_size self a0) xs in
                   if clamped =? 1 then ret 1 else randint2 1 clamped) in
     ret (Crossover.resolve_axis self (shape a0), size)) rng.
Proof.
  intros Hne Hxs. unfold Crossover.settings, resolved_max_size.
  assert (xs ≠ []) as Hxne.
  { apply extents_minus_1_Ok in Hxs. intros ->. apply Forall2_nil_inv_r in Hxs. done. }
  destruct (Crossover.max_size self) as [m|].
  - unfold bind at 1. unfold ret at 1. unfold bind at 1. rewrite Hxs. unfold of_result at 1.
    unfold bind at 1. unfold of_result at 1. unfold Crossover.py_min.
    destruct xs; [done |]. done.
  - destruct (Z.eqb_spec (Z.of_nat (length (Crossover.resolve_axis self (shape a0)))) 0) as [Hz|_].
    { destruct (Crossover.resolve_axis self (shape a0)); [done | simpl in Hz; lia]. }
    unfold bind at 1. unfold ret at 1. unfold bind at 1. rewrite Hxs. unfold of_result at 1.
    unfold bind at 1. unfold of_result at 1. unfold Crossover.py_min.
    destruct xs; [done |]. done.
Qed.

End crossover_size.

Section crossover_theorems.
Context {F : Type} `{!Numeric F, !External F}.

(** Without the spectral flag, on two arrays of one shape,
    [Crossover._apply_array] computes its settings, builds the window and
    copies it. *)
Lemma Crossover_apply_array_unfold (self : Crossover.t) (a0 a1 : ndarray F)
    (rng : RandomState F) :
  Crossover.fft self = false → shape a0 = shape a1 →
  Crossover._apply_array self [a0; a1] rng =
    (let* axis_size := Crossover.settings self a0 in
     let* slices := _make_slices (shape a0) axis_size.1 axis_size.2 in
     ret (setitem_slices (np_copy a0) slices (getitem_slices a1 slices))) rng.
Proof.
  intros Hfft Hshape. unfold Crossover._apply_array. rewrite Hfft.
  erewrite bind_run; [| done].
  rewrite bool_decide_eq_true_2 by done. done.
Qed.

(** C3, as the code has it.  The window size of [Crossover._apply_array]
    (lines 76-80), for resolved axes that are not empty and index the shape.
    On two arrays of one shape, without the spectral flag, the call runs
    these settings and then builds and copies the window.  The maximal size
    is the configured one or else [int(((size + 1) / 2) ** (1 / len(axis)))]
    as binary64 evaluates it, which is not always the exact floor; it is
    clamped to
    the minimum of itself and of [shape[a] - 1] over the axes; the size drawn
    is 1 when the clamped maximum is 1, an integer of [[1, clamped)] drawn
    from the random state when it is larger, and the draw is rejected when it
    is smaller. *)
Theorem Crossover_window_size (self : Crossover.t) (a0 : ndarray F)
    (rng : RandomState F) :
  let axis := Crossover.resolve_axis self (shape a0) in
  axis ≠ [] →
  Forall (λ a, - ndim a0 ≤ a < ndim a0) axis →
  (∀ a1 : ndarray F,
     Crossover.fft self = false → shape a0 = shape a1 →
     Crossover._apply_array self [a0; a1] rng =
       (let* axis_size := Crossover.settings self a0 in
        let* slices := _make_slices (shape a0) axis_size.1 axis_size.2 in
        ret (setitem_slices (np_copy a0) slices (getitem_slices a1 slices))) rng) ∧
  ∃ max_size clamped : Z,
    (Crossover.max_size self = None →
       max_size = int_half_pow (size a0 + 1) (Z.of_nat (length axis))) ∧
    (∀ m, Crossover.max_size self = Some m → max_size = m) ∧
    clamped ≤ max_size ∧
    (∀ a, a ∈ axis → ∃ s, py_getitem (shape a0) a = Some s ∧ clamped ≤ s - 1) ∧
    (clamped = max_size ∨
     ∃ a, a ∈ axis ∧ py_getitem (shape a0) a = Some (clamped + 1)) ∧
    (clamped = 1 → Crossover.settings self a0 rng = (Ok (axis, 1), rng)) ∧
    (1 < clamped →
       let size := 1 + uniform_stream rng (uniform_pos rng) `mod` (clamped - 1) in
       Crossover.settings self a0 rng = (Ok (axis, size), advance 1 rng) ∧
       1 ≤ size < clamped) ∧
    (clamped < 1 →
       Crossover.settings self a0 rng = (Raise (ValueError "low >= high"), rng)).
Proof.
  intros axis Hne Hvalid.
  split; [intros a1; apply Crossover_apply_array_unfold |].
  destruct (extents_minus_1_total (shape a0) axis) as [xs Hxs].
  { eapply Forall_impl; [exact Hvalid |]. intros a Ha. by apply py_getitem_is_Some. }
  pose proof (settings_unfold self a0 xs rng Hne Hxs) as Hrun.
  apply extents_minus_1_Ok in Hxs.
  destruct (foldl_min_le (resolved_max_size self a0) xs) as [Hle Hall].
  exists (resolved_max_size self a0), (foldl Z.min (resolved_max_size self a0) xs).
  unfold resolved_max_size at 1 2. fold axis.
  split; [by intros -> |]. split; [by intros m -> |]. split; [done |].
  split; [| split; [| split; [| split]]].
  - intros a Ha. apply list_elem_of_lookup in Ha as [i Hi].
    destruct (Forall2_lookup_l _ _ _ _ _ Hxs Hi) as (x & Hx & Hget).
    exists (x + 1). split; [done |].
    pose proof (Forall_lookup_1 _ _ _ _ Hall Hx) as Hc. simpl in Hc. lia.
  - destruct (foldl_min_elem (resolved_max_size self a0) xs) as [Heq | Hin]; [by left |].
    right. apply list_elem_of_lookup in Hin as [i Hi].
    destruct (Forall2_lookup_r _ _ _ _ _ Hxs Hi) as (a & Ha & Hget).
    exists a. split; [by eapply list_elem_of_lookup_2 | done].
  - intros Hc. rewrite Hrun. simpl. rewrite Hc. done.
  - intros Hc. simpl. split.
    + rewrite Hrun. simpl.
      destruct (Z.eqb_spec (foldl Z.min (resolved_max_size self a0) xs) 1); [lia |].
      erewrite bind_run; [| apply randint2_Ok; lia]. done.
    + pose proof (Z.mod_pos_bound (uniform_stream rng (uniform_pos rng))
                    (foldl Z.min (resolved_max_size self a0) xs - 1)). lia.
  - intros Hc. rewrite Hrun. simpl.
    destruct (Z.eqb_spec (foldl Z.min (resolved_max_size self a0) xs) 1); [lia |].
    erewrite bind_fail; [| apply randint2_Raise; lia]. done.
Qed.

(** What a successful run of [Crossover._apply_array] went through. *)
Lemma Crossover_apply_array_inv (self : Crossover.t) (a0 a1 r : ndarray F)
    (rng rng' : RandomState F) :
  Crossover._apply_array self [a0; a1] rng = (Ok r, rng') →
  ∃ (b0 b1 : ndarray F) (post : ndarray F → ndarray F) axis size rng1 slices,
    ((Crossover.fft self = false ∧ b0 = a0 ∧ b1 = a1 ∧ post = id) ∨
     (∃ ax, Crossover.fft self = true ∧ Crossover.axis self = Some ax ∧
            b0 = Fourrier_forward ax a0 ∧ b1 = Fourrier_forward ax a1 ∧
            post = Fourrier_backward ax)) ∧
    shape b0 = shape b1 ∧
    Crossover.settings self b0 rng = (Ok (axis, size), rng1) ∧
    _make_slices (shape b0) axis size rng1 = (Ok slices, rng') ∧
    r = post (setitem_slices (np_copy b0) slices (getitem_slices b1 slices)).
Proof.
  intros H. unfold Crossover._apply_array in H.
  apply bind_Ok in H as (transf & rng0 & Htr & H).
  assert (rng0 = rng ∧
          ((Crossover.fft self = false ∧ transf = None) ∨
           (∃ ax, Crossover.fft self = true ∧ Crossover.axis self = Some ax ∧
                  transf = Some ax))) as [-> Hcases].
  { destruct (Crossover.fft self); [| unfold ret in Htr; simplify_eq; eauto].
    destruct (Crossover.axis self) as [ax|]; [| discriminate].
    unfold ret in Htr. simplify_eq. split; [done |]. right. eauto. }
  set (b0 := match transf with Some ax => Fourrier_forward ax a0 | None => a0 end) in *.
  set (b1 := match transf with Some ax => Fourrier_forward ax a1 | None => a1 end) in *.
  destruct (bool_decide (shape b0 = shape b1)) eqn:Hsh; simpl in H; [| discriminate].
  apply bool_decide_eq_true in Hsh.
  apply bind_Ok in H as ([axis size] & rng1 & Hset & H).
  apply bind_Ok in H as (slices & rng2 & Hsl & H).
  unfold ret in H. simplify_eq. simpl in Hsl.
  exists b0, b1,
    (match transf with Some ax => Fourrier_backward ax | None => id end),
    axis, size, rng1, slices.
  split; [| split; [done | split; [done | split; [done |]]]].
  - destruct Hcases as [[Hf ->] | (ax & Hf & Hax & ->)]; [left | right; exists ax]; done.
  - by destruct transf.
Qed.

End crossover_theorems.

Lemma py_getitem_nat (t : list Z) (a : nat) s :
  t !! a = Some s → py_getitem t (Z.of_nat a) = Some s.
Proof.
  intros Ha. apply lookup_lt_Some in Ha as Hlt.
  unfold py_getitem, normalize_index.
  destruct (Z.leb_spec 0 (Z.of_nat a)); [| lia].
  destruct (Z.ltb_spec (Z.of_nat a) (Z.of_nat (length t))); [| lia].
  simpl. by rewrite Nat2Z.id.
Qed.

Section builder_theorems.
Context {F : Type} `{!Numeric F}.

(** C2. For a positive size, when every targeted extent is at most 1 or
    exceeds the size: if some targeted extent is at most 1 the builder
    raises its [ValueError]; otherwise it returns one range per dimension,
    [(0, extent)] on an untargeted axis and, on a targeted axis, a range of
    length [size] inside [[0, extent]] whose start is the next draw of the
    random state reduced to [[0, extent - size)]. *)
Theorem make_slices_window (shape axes : list Z) (size : Z) (rng : RandomState F) :
  0 < size →
  (∀ (a : nat) s, shape !! a = Some s → Z.of_nat a ∈ axes → s ≤ 1 ∨ size ≤ s - 1) →
  ((∃ (a : nat) s, shape !! a = Some s ∧ Z.of_nat a ∈ axes ∧ s ≤ 1) →
   (_make_slices shape axes size rng).1 =
     Raise (ValueError "Cannot crossover on axis with size 1")) ∧
  ((∀ (a : nat) s, shape !! a = Some s → Z.of_nat a ∈ axes → 1 < s) →
   ∃ slices,
     (_make_slices shape axes size rng).1 = Ok slices ∧
     length slices = length shape ∧
     ∀ (a : nat) s, shape !! a = Some s →
       ∃ sl, slices !! a = Some sl ∧
         if py_in (Z.of_nat a) axes then
           stop sl - start sl = size ∧
           start sl = uniform_stream rng
                        (uniform_pos rng + targeted_count axes 0 a) `mod` (s - size) ∧
           0 ≤ start sl < s - size ∧
           0 ≤ start sl ≤ stop sl ≤ s
         else sl = Slice 0 s).
Proof.
  intros Hsize Hpre. split.
  - intros Hex. apply make_slices_from_Raise.
    + intros i s Hi Hax. destruct (Hpre i s Hi Hax); [by left | right; lia].
    + done.
  - intros Hbig.
    destruct (make_slices_from_Ok shape 0 axes size rng) as (slices & rng' & Hrun).
    { intros i s Hi Hax. simpl in Hax. split; [by eapply Hbig |].
      destruct (Hpre i s Hi Hax); [| lia].
      specialize (Hbig i s Hi Hax). lia. }
    exists slices. unfold _make_slices. rewrite Hrun. simpl.
    split; [done |]. split; [by eapply make_slices_from_length |].
    apply make_slices_from_inv in Hrun as [_ Hspec].
    intros a s Ha. destruct (Hspec a s Ha) as (sl & Hsl & Hcase).
    exists sl. split; [done |]. simpl in Hcase.
    destruct (py_in (Z.of_nat a) axes); [| done].
    destruct Hcase as (Hs & Hpos & Hstart & Hstop).
    pose proof (Z.mod_pos_bound
      (uniform_stream rng (uniform_pos rng + targeted_count axes 0 a)) (s - size) Hpos).
    repeat split; lia.
Qed.

End builder_theorems.

Section crossover_frame.
Context {F : Type} `{!Numeric F, !External F}.

(** When the settings are computed, the size drawn fits every axis. *)
Lemma settings_inv (self : Crossover.t) (a0 : ndarray F) axis size
    (rng rng1 : RandomState F) :
  Crossover.settings self a0 rng = (Ok (axis, size), rng1) →
  axis = Crossover.resolve_axis self (shape a0) ∧
  ∀ a, a ∈ axis → ∃ s, py_getitem (shape a0) a = Some s ∧ 1 ≤ size ≤ s - 1.
Proof.
  intros H. unfold Crossover.settings in H.
  apply bind_Ok in H as (m & rng2 & _ & H).
  apply bind_Ok in H as (xs & rng3 & Hxs & H).
  apply bind_Ok in H as (clamped & rng4 & Hmin & H).
  apply bind_Ok in H as (sz & rng5 & Hdraw & H).
  unfold ret in H. simplify_eq. split; [done |].
  unfold of_result in Hxs, Hmin.
  assert (Hext : Crossover.extents_minus_1 (shape a0)
                   (Crossover.resolve_axis self (shape a0)) = Ok xs) by congruence.
  assert (Hpm : Crossover.py_min m xs = Ok clamped) by congruence.
  clear Hxs Hmin.
  apply extents_minus_1_Ok in Hext.
  unfold Crossover.py_min in Hpm.
  assert (clamped = foldl Z.min m xs) as ->.
  { destruct xs; [discriminate | congruence]. }
  destruct (foldl_min_le m xs) as [_ Hall].
  assert (1 ≤ size ≤ foldl Z.min m xs) as Hsize.
  { destruct (Z.eqb_spec (foldl Z.min m xs) 1) as [Heq|Hne].
    - unfold ret in Hdraw. simplify_eq. lia.
    - apply randint2_inv in Hdraw as (_ & _ & _ & ?). lia. }
  intros a Ha. apply list_elem_of_lookup in Ha as [i Hi].
  destruct (Forall2_lookup_l _ _ _ _ _ Hext Hi) as (x & Hx & Hget).
  exists (x + 1). split; [done |].
  pose proof (Forall_lookup_1 _ _ _ _ Hall Hx) as Hc. simpl in Hc. lia.
Qed.

Lemma in_window_lookup shape : ∀ slices idx (a : nat) n sl j,
  in_window shape slices idx = true →
  shape !! a = Some n → slices !! a = Some sl → idx !! a = Some j →
  (slice_bounds sl n).1 ≤ j < (slice_bounds sl n).2.
Proof.
  induction shape as [|n0 shape IH]; intros [|sl0 slices] [|j0 idx] a n sl j Hin Hn Hsl Hj;
    try by destruct a.
  simpl in Hin.
  apply andb_true_iff in Hin as [Hin Hrest].
  apply andb_true_iff in Hin as [Hlo Hhi].
  apply Z.leb_le in Hlo. apply Z.ltb_lt in Hhi.
  destruct a as [|a]; simpl in *; simplify_eq; [done |].
  by eapply IH.
Qed.

(** C10. A range built for a targeted axis of extent [s] with a size in
    [[1, s - 1]] starts at 0 or later and stops at [s - 1] or earlier; and
    where [Crossover._apply_array] returns without the spectral flag,
    every element whose index along some targeted axis is the last one is
    the element of the first array. *)
Theorem make_slices_last_index_excluded :
  (∀ (shape axes : list Z) (size : Z) (rng rng' : RandomState F) slices
     (a : nat) s sl,
     _make_slices shape axes size rng = (Ok slices, rng') →
     shape !! a = Some s → Z.of_nat a ∈ axes → 1 ≤ size ≤ s - 1 →
     slices !! a = Some sl →
     0 ≤ start sl ∧ stop sl - start sl = size ∧ stop sl ≤ s - 1) ∧
  (∀ (self : Crossover.t) (a0 a1 r : ndarray F) (rng rng' : RandomState F)
     idx (a : nat) s,
     Crossover.fft self = false →
     Crossover._apply_array self [a0; a1] rng = (Ok r, rng') →
     in_bounds (shape a0) idx →
     Z.of_nat a ∈ Crossover.resolve_axis self (shape a0) →
     shape a0 !! a = Some s → idx !! a = Some (s - 1) →
     item r idx = item a0 idx).
Proof.
  assert (Hbuilder : ∀ (shape axes : list Z) (size : Z) (rng rng' : RandomState F)
     slices (a : nat) s sl,
     _make_slices shape axes size rng = (Ok slices, rng') →
     shape !! a = Some s → Z.of_nat a ∈ axes → 1 ≤ size ≤ s - 1 →
     slices !! a = Some sl →
     0 ≤ start sl ∧ stop sl - start sl = size ∧ stop sl ≤ s - 1).
  { intros shape axes size rng rng' slices a s sl Hrun Ha Hax Hsize Hsl.
    apply make_slices_from_inv in Hrun as [_ Hspec].
    destruct (Hspec a s Ha) as (sl' & Hsl' & Hcase). simplify_eq.
    simpl in Hcase. apply py_in_spec in Hax. rewrite Hax in Hcase.
    destruct Hcase as (_ & Hpos & Hstart & Hstop).
    pose proof (Z.mod_pos_bound
      (uniform_stream rng (uniform_pos rng + targeted_count axes 0 a)) (s - size) Hpos).
    lia. }
  split; [exact Hbuilder |].
  intros self a0 a1 r rng rng' idx a s Hfft Hrun Hidx Hax Ha Hlast.
  apply Crossover_apply_array_inv in Hrun
    as (b0 & b1 & post & axis & size & rng1 & slices & Hcases & _ & Hset & Hsl & ->).
  destruct Hcases as [(_ & -> & -> & ->) | (ax & Hf & _)]; [| congruence].
  apply settings_inv in Hset as [-> Hsize].
  destruct (Hsize _ Hax) as (s' & Hs' & Hsz).
  rewrite (py_getitem_nat _ _ _ Ha) in Hs'. simplify_eq.
  pose proof (make_slices_from_length _ _ _ _ _ _ _ Hsl) as Hlen.
  destruct (lookup_lt_is_Some_2 slices a) as [sl Hsla].
  { rewrite Hlen. by eapply lookup_lt_Some. }
  destruct (Hbuilder _ _ _ _ _ _ _ _ _ Hsl Ha Hax Hsz Hsla) as (Hst & Hd & Hsp).
  simpl. unfold item. rewrite setitem_shape, !nth_lookup. simpl.
  rewrite list_lookup_imap.
  destruct (buf a0 !! Z.to_nat (ravel (shape a0) idx)) as [x|] eqn:Hx; [| done].
  simpl. pose proof (ravel_bounds _ _ Hidx).
  rewrite Z2Nat.id, unravel_ravel by (done || lia).
  destruct (in_window (shape a0) slices idx) eqn:Hin; [| done].
  exfalso.
  pose proof (in_window_lookup _ _ _ _ _ _ _ Hin Ha Hsla Hlast) as [_ Hhi].
  unfold slice_bounds in Hhi. simpl in Hhi.
  destruct (Z.ltb_spec (stop sl) 0); lia.
Qed.

(** C5.  Where the claim expects the error of the window builder, the code
    raises another one.  Without the spectral flag, on two arrays of one
    shape, when the resolved axes index the shape and one of them has extent
    1, [Crossover._apply_array] raises the [ValueError] of the size draw
    [randint(1, max_size)], whose clamped maximum is at most 0; the builder
    and its check of the extent are not reached. *)
Theorem Crossover_extent_1_size_draw_rejected (self : Crossover.t)
    (a0 a1 : ndarray F) (rng : RandomState F) :
  Crossover.fft self = false →
  shape a0 = shape a1 →
  Forall (λ a, - ndim a0 ≤ a < ndim a0) (Crossover.resolve_axis self (shape a0)) →
  (∃ a, a ∈ Crossover.resolve_axis self (shape a0) ∧
        py_getitem (shape a0) a = Some 1) →
  Crossover._apply_array self [a0; a1] rng = (Raise (ValueError "low >= high"), rng).
Proof.
  intros Hfft Hshape Hvalid (a & Ha & Hone).
  assert (Crossover.resolve_axis self (shape a0) ≠ []) as Hne.
  { intros Heq. rewrite Heq in Ha. by apply elem_of_nil in Ha. }
  destruct (extents_minus_1_total (shape a0) (Crossover.resolve_axis self (shape a0)))
    as [xs Hxs].
  { eapply Forall_impl; [exact Hvalid |]. intros b Hb. by apply py_getitem_is_Some. }
  pose proof (settings_unfold self a0 xs rng Hne Hxs) as Hrun.
  apply extents_minus_1_Ok in Hxs.
  destruct (foldl_min_le (resolved_max_size self a0) xs) as [_ Hall].
  apply list_elem_of_lookup in Ha as [i Hi].
  destruct (Forall2_lookup_l _ _ _ _ _ Hxs Hi) as (x & Hx & Hget).
  pose proof (Forall_lookup_1 _ _ _ _ Hall Hx) as Hc. simpl in Hc.
  assert (x = 0) as -> by (rewrite Hone in Hget; injection Hget; lia).
  unfold Crossover._apply_array. rewrite Hfft.
  erewrite bind_run; [| done].
  rewrite bool_decide_eq_true_2 by done. simpl.
  erewrite bind_fail; [done |]. rewrite Hrun. simpl.
  destruct (Z.eqb_spec (foldl Z.min (resolved_max_size self a0) xs) 1); [lia |].
  erewrite bind_fail; [| apply randint2_Raise; lia]. done.
Qed.

(** When [Crossover._apply_array] returns: without the spectral flag, on
    two arrays of one shape, for axes that are not empty and have extent 2 at
    least, and a maximal size of 1 at least. *)
Lemma Crossover_apply_array_returns (self : Crossover.t) (a0 a1 : ndarray F)
    (rng : RandomState F) :
  Crossover.fft self = false → shape a0 = shape a1 →
  Crossover.resolve_axis self (shape a0) ≠ [] →
  Forall (λ a, ∃ s, py_getitem (shape a0) a = Some s ∧ 2 ≤ s)
         (Crossover.resolve_axis self (shape a0)) →
  1 ≤ resolved_max_size self a0 →
  ∃ r rng', Crossover._apply_array self [a0; a1] rng = (Ok r, rng').
Proof.
  intros Hfft Hshape Hne Hext Hmax.
  rewrite Crossover_apply_array_unfold by done.
  set (axis := Crossover.resolve_axis self (shape a0)) in *.
  destruct (extents_minus_1_total (shape a0) axis) as [xs Hxs].
  { eapply Forall_impl; [exact Hext |]. intros a (s & Hs & _). by eexists. }
  pose proof (settings_unfold self a0 xs rng Hne Hxs) as Hrun. fold axis in Hrun.
  apply extents_minus_1_Ok in Hxs.
  set (c := foldl Z.min (resolved_max_size self a0) xs) in *.
  assert (Forall (λ x, 1 ≤ x) xs) as Hxs1.
  { apply Forall_lookup. intros i x Hx.
    destruct (Forall2_lookup_r _ _ _ _ _ Hxs Hx) as (a & Ha & Hget).
    destruct (Forall_lookup_1 _ _ _ _ Hext Ha) as (s & Hs & Hs2).
    rewrite Hget in Hs. simplify_eq. lia. }
  pose proof (foldl_min_ge 1 _ _ Hmax Hxs1) as Hc1. fold c in Hc1.
  destruct (foldl_min_le (resolved_max_size self a0) xs) as [_ Hall]. fold c in Hall.
  assert (∃ size rng1, Crossover.settings self a0 rng = (Ok (axis, size), rng1) ∧
                       1 ≤ size ≤ c) as (size & rng1 & Hset & Hsize).
  { rewrite Hrun. simpl. destruct (Z.eqb_spec c 1) as [Heq|Hneq].
    - exists 1, rng. split; [done | lia].
    - eexists _, _. erewrite bind_run; [| apply randint2_Ok; lia].
      split; [done |].
      pose proof (Z.mod_pos_bound (uniform_stream rng (uniform_pos rng)) (c - 1)). lia. }
  destruct (make_slices_from_Ok (shape a0) 0 axis size rng1) as (slices & rng2 & Hsl).
  { intros i s Hi Hax. simpl in Hax.
    apply list_elem_of_lookup in Hax as [j Hj].
    destruct (Forall2_lookup_l _ _ _ _ _ Hxs Hj) as (x & Hx & Hget).
    rewrite (py_getitem_nat _ _ _ Hi) in Hget. simplify_eq.
    pose proof (Forall_lookup_1 _ _ _ _ Hall Hx) as Hcx. simpl in Hcx.
    pose proof (Forall_lookup_1 _ _ _ _ Hxs1 Hx) as Hx1. simpl in Hx1. lia. }
  eexists _, _.
  erewrite bind_run; [| exact Hset]. simpl.
  erewrite bind_run; [| exact Hsl]. done.
Qed.

(** C7. Whenever [Crossover._apply_array] returns on two identical arrays,
    it returns that array, whatever window was drawn; and it does return,
    without the spectral flag, for axes of extent 2 at least and a maximal
    size of 1 at least.  With the spectral flag the transform is assumed to
    yield a valid array and to be inverted by its backward transform. *)
Theorem Crossover_identical_inputs (self : Crossover.t) (a : ndarray F)
    (rng : RandomState F) :
  wf_ndarray a →
  (Crossover.fft self = true →
   ∀ ax, wf_ndarray (Fourrier_forward ax a) ∧
         Fourrier_backward ax (Fourrier_forward ax a) = a) →
  (∀ r rng', Crossover._apply_array self [a; a] rng = (Ok r, rng') → r = a) ∧
  (Crossover.fft self = false →
   Crossover.resolve_axis self (shape a) ≠ [] →
   Forall (λ x, ∃ s, py_getitem (shape a) x = Some s ∧ 2 ≤ s)
          (Crossover.resolve_axis self (shape a)) →
   1 ≤ resolved_max_size self a →
   ∃ rng', Crossover._apply_array self [a; a] rng = (Ok a, rng')).
Proof.
  intros Hwf Hfft.
  assert (Hsame : ∀ r rng',
            Crossover._apply_array self [a; a] rng = (Ok r, rng') → r = a).
  { intros r rng' Hrun.
    apply Crossover_apply_array_inv in Hrun
      as (b0 & b1 & post & axis & size & rng1 & slices & Hcases & _ & _ & Hsl & ->).
    apply make_slices_from_length in Hsl.
    destruct Hcases as [(_ & -> & -> & ->) | (ax & Hf & _ & -> & -> & ->)].
    - rewrite np_copy_id, setitem_getitem_same by done. done.
    - destruct (Hfft Hf ax) as [Hwf' Hinv].
      rewrite np_copy_id, setitem_getitem_same by done. done. }
  split; [exact Hsame |].
  intros Hoff Hne Hext Hmax.
  destruct (Crossover_apply_array_returns self a a rng Hoff eq_refl Hne Hext Hmax)
    as (r & rng' & Hrun).
  exists rng'. by rewrite <- (Hsame _ _ Hrun) at 3.
Qed.

End crossover_frame.

(** ** Cyclic shifts *)

Lemma roll_source_bounds n off j : 0 < n → 0 ≤ roll_source n off j < n.
Proof. intros Hn. unfold roll_source. apply Z.mod_pos_bound. lia. Qed.

Lemma roll_source_inverse n x y j :
  0 ≤ j < n → (x + y) `mod` n = 0 → roll_source n x (roll_source n y j) = j.
Proof.
  intros Hj Hxy. unfold roll_source.
  destruct (Z.eqb_spec n 0) as [|_]; [lia |].
  rewrite Zminus_mod_idemp_l.
  replace (j - y `mod` n - x `mod` n) with (j - (x `mod` n + y `mod` n)) by lia.
  rewrite Zminus_mod, <- Zplus_mod, Hxy, Z.sub_0_r, Z.mod_mod by lia.
  apply Z.mod_small. lia.
Qed.

Lemma cancelling_cons n shape x o1 y o2 :
  cancelling (n :: shape) (x :: o1) (y :: o2) →
  (x + y) `mod` n = 0 ∧ cancelling shape o1 o2.
Proof.
  intros (Hl1 & Hl2 & H). split; [by apply (H 0%nat) |].
  split; [simpl in Hl1; lia |]. split; [simpl in Hl2; lia |].
  intros i n' x' y' ???. by apply (H (S i)).
Qed.

Lemma roll_index_in_bounds shape : ∀ offs idx,
  length offs = length shape → in_bounds shape idx →
  in_bounds shape (roll_index shape offs idx).
Proof.
  induction shape as [|n shape IH]; intros [|off offs] idx Hlen Hb;
    inversion Hb as [|? j ? idx' Hj Hrest]; simplify_eq/=; constructor.
  - apply roll_source_bounds. lia.
  - by apply IH.
Qed.

Lemma roll_index_inverse shape : ∀ o1 o2 idx,
  cancelling shape o1 o2 → in_bounds shape idx →
  roll_index shape o1 (roll_index shape o2 idx) = idx.
Proof.
  induction shape as [|n shape IH]; intros o1 o2 idx Hc Hb;
    inversion Hb as [|? j ? idx' Hj Hrest]; simplify_eq; [done |].
  destruct Hc as (Hl1 & Hl2 & H) eqn:E; clear E.
  destruct o1 as [|x o1]; [done |]. destruct o2 as [|y o2]; [done |].
  apply cancelling_cons in Hc as [Hxy Hc]. simpl.
  rewrite roll_source_inverse by done. f_equal. by apply IH.
Qed.

Section roll_lemmas.
Context {F : Type} `{!Numeric F}.

Lemma roll_by_item (a : ndarray F) offs idx :
  in_bounds (shape a) idx →
  item (roll_by a offs) idx = item a (roll_index (shape a) offs idx).
Proof.
  intros Hb. unfold roll_by. rewrite item_tabulate by done.
  by rewrite unravel_ravel.
Qed.

Lemma roll_by_wf (a : ndarray F) offs : wf_ndarray a → wf_ndarray (roll_by a offs).
Proof.
  intros [Hsh Hlen]. split; [done |]. simpl. by rewrite tabulate_length.
Qed.

Lemma roll_by_inverse (a : ndarray F) o1 o2 :
  wf_ndarray a → cancelling (shape a) o1 o2 → roll_by (roll_by a o1) o2 = a.
Proof.
  intros Hwf Hc. pose proof Hwf as [Hsh Hlen].
  destruct a as [sh b]. unfold roll_by at 1. simpl in *. f_equal.
  apply list_eq. intros k.
  destruct (decide (k < Z.to_nat (prodZ sh))%nat) as [Hk|Hk].
  - rewrite tabulate_lookup by done.
    assert (in_bounds sh (unravel sh (Z.of_nat k))) as Hb.
    { apply unravel_in_bounds; [done | lia]. }
    rewrite roll_by_item; simpl.
    2:{ apply roll_index_in_bounds; [by destruct Hc as (_ & ? & _) | done]. }
    rewrite roll_index_inverse by done.
    destruct (lookup_lt_is_Some_2 b k) as [x Hx]; [lia |].
    rewrite Hx. f_equal.
    by apply (item_unravel (mkarray sh b) k x).
  - rewrite !lookup_ge_None_2; [done | lia |].
    rewrite tabulate_length. lia.
Qed.

Lemma roll_offsets_cancelling shape pairs : ∀ acc1 acc2,
  Forall (λ p, is_Some (normalize_index (Z.of_nat (length shape)) p.2)) pairs →
  cancelling shape acc1 acc2 →
  ∃ o1 o2,
    roll_offsets (Z.of_nat (length shape)) pairs acc1 = Ok o1 ∧
    roll_offsets (Z.of_nat (length shape)) (opposite shape pairs) acc2 = Ok o2 ∧
    cancelling shape o1 o2.
Proof.
  induction pairs as [|[v ax] pairs IH]; intros acc1 acc2 Hvalid Hc; simpl.
  - by eexists _, _.
  - apply Forall_cons in Hvalid as [[i Hi] Hvalid]. simpl in Hi. rewrite Hi.
    apply IH; [done |].
    destruct Hc as (Hl1 & Hl2 & H).
    split; [by rewrite length_alter |]. split; [by rewrite length_alter |].
    intros j n x y Hn Hx Hy.
    destruct (decide (Z.to_nat i = j)) as [<-|Hne].
    + rewrite list_lookup_alter_eq in Hx, Hy.
      destruct (acc1 !! Z.to_nat i) as [x0|] eqn:Hx0; [| done].
      destruct (acc2 !! Z.to_nat i) as [y0|] eqn:Hy0; [| done].
      simpl in Hx, Hy. simplify_eq.
      assert (py_getitem shape ax = Some n) as ->.
      { unfold py_getitem. rewrite Hi. done. }
      simpl. replace (v + x0 + (n - v + y0)) with (x0 + y0 + 1 * n) by lia.
      rewrite Z_mod_plus_full. by eapply H.
    + rewrite list_lookup_alter_ne in Hx, Hy by done. by eapply H.
Qed.

Lemma cancelling_zero shape :
  cancelling shape (replicate (length shape) 0) (replicate (length shape) 0).
Proof.
  split; [by rewrite length_replicate |]. split; [by rewrite length_replicate |].
  intros i n x y _ Hx Hy.
  apply lookup_replicate in Hx as [-> _]. apply lookup_replicate in Hy as [-> _].
  apply Zmod_0_l.
Qed.

(** [np.roll] by some shifts and then by the opposite shifts. *)
Lemma np_roll_opposite (a : ndarray F) pairs :
  wf_ndarray a →
  Forall (λ p, is_Some (normalize_index (ndim a) p.2)) pairs →
  ∃ r, np_roll a pairs = Ok r ∧ wf_ndarray r ∧ shape r = shape a ∧
       np_roll r (opposite (shape a) pairs) = Ok a.
Proof.
  intros Hwf Hvalid.
  destruct (roll_offsets_cancelling (shape a) pairs _ _ Hvalid (cancelling_zero _))
    as (o1 & o2 & H1 & H2 & Hc).
  exists (roll_by a o1). unfold np_roll, ndim. rewrite H1. simpl.
  split; [done |]. split; [by apply roll_by_wf |]. split; [done |].
  rewrite H2. f_equal. by apply roll_by_inverse.
Qed.

End roll_lemmas.

Lemma normalize_index_range len i :
  - len ≤ i < len → is_Some (normalize_index len i).
Proof.
  intros Hi. unfold normalize_index.
  destruct (Z.leb_spec 0 i), (Z.ltb_spec i len); simpl; try done; try lia.
  destruct (Z.leb_spec (- len) i), (Z.ltb_spec i 0); simpl; try done; lia.
Qed.

Lemma normalize_index_Some len i j :
  normalize_index len i = Some j → - len ≤ i < len ∧ 0 ≤ j < len.
Proof.
  unfold normalize_index.
  destruct (Z.leb_spec 0 i), (Z.ltb_spec i len); simpl;
    try (intros; simplify_eq; lia);
    destruct (Z.leb_spec (- len) i), (Z.ltb_spec i 0); simpl;
    intros; simplify_eq; lia.
Qed.

Lemma py_getitem_Some (t : list Z) i s :
  py_getitem t i = Some s →
  ∃ j, normalize_index (Z.of_nat (length t)) i = Some j ∧ t !! Z.to_nat j = Some s.
Proof.
  unfold py_getitem. destruct (normalize_index _ i) as [j|]; [| done].
  simpl. eauto.
Qed.

Lemma roll_source_zero n j : 0 ≤ j < n → roll_source n 0 j = j.
Proof.
  intros Hj. unfold roll_source. rewrite Zmod_0_l, Z.sub_0_r.
  apply Z.mod_small. lia.
Qed.

Lemma roll_index_zero shape : ∀ idx,
  in_bounds shape idx → roll_index shape (replicate (length shape) 0) idx = idx.
Proof.
  induction shape as [|n shape IH]; intros idx Hb;
    inversion Hb as [|? j ? idx' Hj Hrest]; simplify_eq/=; [done |].
  by rewrite roll_source_zero, IH.
Qed.

(** Rolling one axis moves the index along that axis only. *)
Lemma roll_index_single shape : ∀ idx (ax : nat) sh n j,
  in_bounds shape idx → shape !! ax = Some n → idx !! ax = Some j →
  roll_index shape (alter (Z.add sh) ax (replicate (length shape) 0)) idx =
    <[ax := (j - sh) `mod` n]> idx.
Proof.
  induction shape as [|n0 shape IH]; intros idx ax sh n j Hb Hn Hj;
    inversion Hb as [|? j0 ? idx' Hj0 Hrest]; simplify_eq; try (by destruct ax).
  destruct ax as [|ax]; simpl in *; simplify_eq.
  - rewrite roll_index_zero by done. f_equal.
    unfold roll_source. destruct (Z.eqb_spec n 0); [lia |].
    rewrite Z.add_0_r. apply Zminus_mod_idemp_r.
  - rewrite roll_source_zero by done. f_equal. by eapply IH.
Qed.

Section translation_theorems.
Context {F : Type} `{!Numeric F}.

Lemma draw_shifts_inv shape axis : ∀ shifts (rng rng' : RandomState F),
  Translation.draw_shifts shape axis rng = (Ok shifts, rng') →
  Forall2 (λ a v, ∃ s, py_getitem shape a = Some s ∧ 0 ≤ v < s) axis shifts.
Proof.
  induction axis as [|a axis IH]; intros shifts rng rng' H; simpl in H.
  - unfold ret in H. simplify_eq. constructor.
  - apply bind_Ok in H as (s & rng1 & Hs & H).
    apply bind_Ok in H as (v & rng2 & Hv & H).
    apply bind_Ok in H as (vs & rng3 & Hvs & H).
    unfold ret in H. simplify_eq.
    destruct (py_getitem shape a) as [s'|] eqn:Hget; [| discriminate].
    unfold of_option, ret in Hs. simplify_eq.
    apply randint2_inv in Hv as (_ & _ & _ & Hrange).
    constructor; [eauto | by eapply IH].
Qed.

Lemma opposite_zip shape : ∀ axes v,
  length v = length axes →
  opposite shape (zip v axes) = zip (opposite_shifts shape axes v) axes.
Proof.
  induction axes as [|a axes IH]; intros [|x v] Hlen; simplify_eq/=; [done.. |].
  f_equal. by apply IH.
Qed.

(** C8. A cyclic shift of a valid array by the shifts [v] along the axes
    [axes], followed by the cyclic shift by the extents minus [v] along the
    same axes, gives the array back; and what [Translation._apply_array]
    returns is such a cyclic shift, along its configured axes. *)
Theorem Translation_shift_inverse (data : ndarray F) :
  wf_ndarray data →
  (∀ axes v : list Z,
     length v = length axes →
     Forall (λ a, - ndim data ≤ a < ndim data) axes →
     ∃ r, np_roll data (zip v axes) = Ok r ∧
          np_roll r (zip (opposite_shifts (shape data) axes v) axes) = Ok data) ∧
  (∀ (self : Translation.t) (rng rng' : RandomState F) r,
     Translation._apply_array self [data] rng = (Ok r, rng') →
     ∃ axes v,
       Translation.axis self = Some axes ∧ length v = length axes ∧
       Forall (λ a, - ndim data ≤ a < ndim data) axes ∧
       np_roll data (zip v axes) = Ok r).
Proof.
  intros Hwf. split.
  - intros axes v Hlen Hvalid.
    destruct (np_roll_opposite data (zip v axes) Hwf) as (r & Hr & Hwfr & Hsh & Hback).
    { apply Forall_forall. intros [x a] Hin.
      apply elem_of_zip_r in Hin. simpl.
      apply normalize_index_range. by eapply (proj1 (Forall_forall _ _) Hvalid). }
    exists r. split; [done |]. by rewrite <- opposite_zip.
  - intros self rng rng' r H. unfold Translation._apply_array in H.
    apply bind_Ok in H as (axes & rng1 & Hax & H).
    apply bind_Ok in H as (v & rng2 & Hv & H).
    destruct (Translation.axis self) as [axes'|]; [| discriminate].
    unfold ret in Hax. simplify_eq.
    apply draw_shifts_inv in Hv.
    exists axes, v. split; [done |]. split; [symmetry; by eapply Forall2_length |].
    split.
    + apply Forall_forall. intros a Ha.
      apply list_elem_of_lookup in Ha as [i Hi].
      destruct (Forall2_lookup_l _ _ _ _ _ Hv Hi) as (x & _ & s & Hs & _).
      apply py_getitem_Some in Hs as (j & Hj & _).
      apply normalize_index_Some in Hj. unfold ndim. lia.
    + unfold of_result in H. congruence.
Qed.

End translation_theorems.

Section tuned_translation_theorems.
Context {F : Type} `{!Numeric F}.

Lemma py_range_lookup start stop (i : nat) :
  Z.of_nat i < stop - start → py_range start stop !! i = Some (start + Z.of_nat i).
Proof. intros Hi. unfold py_range. by apply lookup_seqZ_lt. Qed.

Lemma py_range_length start stop :
  length (py_range start stop) = Z.to_nat (stop - start).
Proof. unfold py_range. apply length_seqZ. Qed.

(** [np.roll(w, shift)] on a valid array moves the element at offset [i]
    to offset [(i + shift) mod size]. *)
Lemma np_roll_flat_lookup (w : ndarray F) sh i :
  wf_ndarray w → 0 ≤ i < Z.of_nat (length (buf w)) →
  buf (np_roll_flat w sh) !! Z.to_nat ((i + sh) `mod` Z.of_nat (length (buf w))) =
    buf w !! Z.to_nat i.
Proof.
  intros [Hsh Hlen] Hi.
  assert (Z.of_nat (length (buf w)) = size w) as Hm.
  { unfold size. rewrite Hlen. pose proof (prodZ_nonneg _ Hsh). lia. }
  rewrite Hm in *. set (m := size w) in *.
  pose proof (Z.mod_pos_bound (i + sh) m) as Hk.
  set (k := (i + sh) `mod` m) in *.
  unfold np_roll_flat, roll_by. simpl. fold m.
  replace (m * 1) with m by lia.
  rewrite tabulate_lookup by lia.
  rewrite Z2Nat.id by lia.
  unfold item. simpl.
  rewrite Z.div_1_r, Z.add_0_r, Z.mul_1_r.
  assert (roll_source m sh k = i) as ->.
  { unfold roll_source, k. destruct (Z.eqb_spec m 0); [lia |].
    rewrite <- Zminus_mod. replace (i + sh - sh) with i by lia.
    apply Z.mod_small. lia. }
  destruct (lookup_lt_is_Some_2 (buf w) (Z.to_nat i)) as [x Hx]; [lia |].
  by rewrite nth_lookup, Hx.
Qed.

(** The operator built by [__init__] has a choice over
    [range(1, shape[axis])] with valid weights, and its first category is a
    valid sample as soon as the extent is 2 at least. *)
Lemma TunedTranslation_init_valid (axis : Z) (shape : list Z)
    (op : TunedTranslation.t F) :
  TunedTranslation.__init__ axis shape = Ok op →
  ∃ n, py_getitem shape axis = Some n ∧
       TunedTranslation.axis op = axis ∧ TunedTranslation.shape op = shape ∧
       choices (TunedTranslation.shift op) = py_range 1 n ∧
       wf_ndarray (weights (TunedTranslation.shift op)) ∧
       (2 ≤ n → (index (TunedTranslation.shift op) <
                   length (choices (TunedTranslation.shift op)))%nat).
Proof.
  unfold TunedTranslation.__init__. intros H.
  destruct (py_getitem shape axis) as [n|]; [| discriminate].
  simplify_eq. exists n. simpl. repeat (split; [done |]). split.
  - split; simpl; [repeat constructor; lia |].
    rewrite length_replicate. lia.
  - intros Hn. rewrite py_range_length. lia.
Qed.

(** C4. [TunedTranslation._apply_array] on one valid array of the
    configured shape, for an operator whose choice ranges over
    [range(1, shape[axis])] and holds a valid sample: the sampled shift is
    in [[1, extent - 1]]; the array returned has the shape of the input and
    holds at each index the input element found [shift] positions earlier,
    cyclically, along the axis; and the weights are rolled by the shift,
    the rest of the operator being unchanged. *)
Theorem TunedTranslation_apply_array_shift (self : TunedTranslation.t F)
    (data : ndarray F) (n : Z) :
  wf_ndarray data →
  shape data = TunedTranslation.shape self →
  py_getitem (TunedTranslation.shape self) (TunedTranslation.axis self) = Some n →
  choices (TunedTranslation.shift self) = py_range 1 n →
  (index (TunedTranslation.shift self) <
     length (choices (TunedTranslation.shift self)))%nat →
  wf_ndarray (weights (TunedTranslation.shift self)) →
  ∃ (shift : Z) (r : ndarray F) (self' : TunedTranslation.t F) (ax : nat),
    Choice_value (TunedTranslation.shift self) = Some shift ∧
    1 ≤ shift ≤ n - 1 ∧
    TunedTranslation._apply_array [data] self = (Ok r, self') ∧
    shape r = shape data ∧
    normalize_index (ndim data) (TunedTranslation.axis self) = Some (Z.of_nat ax) ∧
    shape data !! ax = Some n ∧
    (∀ idx j, in_bounds (shape data) idx → idx !! ax = Some j →
              item r idx = item data (<[ax := (j - shift) `mod` n]> idx)) ∧
    TunedTranslation.axis self' = TunedTranslation.axis self ∧
    TunedTranslation.shape self' = TunedTranslation.shape self ∧
    choices (TunedTranslation.shift self') = choices (TunedTranslation.shift self) ∧
    index (TunedTranslation.shift self') = index (TunedTranslation.shift self) ∧
    weights (TunedTranslation.shift self') =
      np_roll_flat (weights (TunedTranslation.shift self)) shift ∧
    (let w := buf (weights (TunedTranslation.shift self)) in
     let w' := buf (weights (TunedTranslation.shift self')) in
     ∀ i, 0 ≤ i < Z.of_nat (length w) →
          w' !! Z.to_nat ((i + shift) `mod` Z.of_nat (length w)) = w !! Z.to_nat i).
Proof.
  intros Hwf Hshape Hn Hch Hidx Hww.
  rewrite Hch, py_range_length in Hidx.
  assert (Choice_value (TunedTranslation.shift self)
            = Some (1 + Z.of_nat (index (TunedTranslation.shift self)))) as Hval.
  { unfold Choice_value. rewrite Hch. apply py_range_lookup. lia. }
  rewrite <- Hshape in Hn.
  apply py_getitem_Some in Hn as (j & Hj & Hn).
  pose proof (normalize_index_Some _ _ _ Hj) as [_ Hjr].
  set (shift := 1 + Z.of_nat (index (TunedTranslation.shift self))) in *.
  exists shift,
    (roll_by data (alter (Z.add shift) (Z.to_nat j) (replicate (length (shape data)) 0))),
    (TunedTranslation.mk (TunedTranslation.axis self) (TunedTranslation.shape self)
       (mkChoice (choices (TunedTranslation.shift self))
                 (index (TunedTranslation.shift self))
                 (np_roll_flat (weights (TunedTranslation.shift self)) shift))),
    (Z.to_nat j).
  split; [done |]. split; [lia |]. split.
  { unfold TunedTranslation._apply_array.
    unfold bind at 1. unfold get at 1.
    rewrite bool_decide_eq_true_2 by done. simpl.
    unfold bind at 1. rewrite Hval. simpl. unfold ret.
    unfold bind at 1. unfold put at 1.
    unfold of_result, np_roll, ndim. simpl. rewrite Hj. done. }
  split; [done |]. split; [unfold ndim; rewrite Z2Nat.id by lia; done |].
  split; [done |]. split.
  { intros idx j' Hb Hj'. rewrite roll_by_item by done.
    by erewrite roll_index_single. }
  repeat (split; [done |]). simpl.
  intros i Hi. by apply np_roll_flat_lookup.
Qed.

End tuned_translation_theorems.

(** ** LocalGaussian *)

Section local_gaussian_theorems.
Context {F : Type} `{!Numeric F, !External F}.

Lemma item_zeros shape idx : item (np_zeros (F:=F) shape) idx = zero.
Proof.
  unfold item, np_zeros. simpl. rewrite nth_lookup.
  destruct (replicate _ _ !! _) as [x|] eqn:Hx; [| done].
  apply lookup_replicate in Hx as [-> _]. done.
Qed.

(** The array built by [LocalGaussian.apply], element by element. *)
Lemma noisy_data_inv (self : LocalGaussian.t) (value data : ndarray F)
    (rng rng' : RandomState F) :
  Forall (λ n, 0 ≤ n) (shape value) →
  LocalGaussian.noisy_data self value rng = (Ok data, rng') →
  ∃ slices rng1,
    _make_slices (shape value) (LocalGaussian.resolve_axes self (shape value))
                 (LocalGaussian.size self) rng = (Ok slices, rng1) ∧
    shape data = shape value ∧
    length (buf data) = Z.to_nat (prodZ (shape value)) ∧
    ∀ k : nat, (k < Z.to_nat (prodZ (shape value)))%nat →
      buf data !! k =
        Some (let idx := unravel (shape value) (Z.of_nat k) in
              if in_window (shape value) slices idx
              then add zero (noise_at rng (shape value) slices idx)
              else zero).
Proof.
  intros Hsh H. unfold LocalGaussian.noisy_data in H.
  apply bind_Ok in H as (slices & rng1 & Hsl & H).
  apply bind_Ok in H as (noise & rng2 & Hnoise & H).
  unfold ret in H. simplify_eq.
  exists slices, rng1. split; [done |]. split; [done |].
  split; [by rewrite setitem_length; simpl; rewrite length_replicate |].
  intros k Hk. simpl in *.
  pose proof (make_slices_from_length _ _ _ _ _ _ _ Hsl) as Hlen.
  apply make_slices_from_inv in Hsl as [-> _].
  unfold normal in Hnoise. simplify_eq. simpl.
  rewrite list_lookup_imap, lookup_replicate_2 by done. simpl. f_equal.
  destruct (in_window _ _ _) eqn:Hin; [| done].
  assert (in_bounds (shape value) (unravel (shape value) (Z.of_nat k))) as Hb.
  { apply unravel_in_bounds; [done | lia]. }
  destruct (in_window_relative _ _ _ Hlen (in_bounds_length _ _ Hb) Hin) as [Hrel _].
  pose proof (ravel_bounds _ _ Hrel) as Hr.
  unfold item, np_add. simpl. rewrite nth_lookup, lookup_zip_with.
  rewrite tabulate_lookup by lia.
  rewrite list_lookup_fmap, lookup_seq_lt by lia. simpl.
  rewrite item_zeros. done.
Qed.

(** What a successful [LocalGaussian.apply] leaves in the parameter. *)
Lemma LocalGaussian_apply_inv (self : LocalGaussian.t) (p : Array F)
    (rng : RandomState F) (w' : World LocalGaussian.t F) :
  wf_ndarray (_value p) →
  LocalGaussian.apply (mkWorld self rng [p]) = (Ok (), w') →
  ∃ slices rng1 data,
    _make_slices (shape (_value p)) (LocalGaussian.resolve_axes self (shape (_value p)))
                 (LocalGaussian.size self) rng = (Ok slices, rng1) ∧
    LocalGaussian.noisy_data self (_value p) rng = (Ok data, random_state w') ∧
    arrays w' = [_internal_set_standardized_data (buf data) p p] ∧
    length (buf data) = Z.to_nat (size (_value p)) ∧
    ∀ k : nat, (k < Z.to_nat (size (_value p)))%nat →
      buf data !! k =
        Some (let idx := unravel (shape (_value p)) (Z.of_nat k) in
              if in_window (shape (_value p)) slices idx
              then add zero (noise_at rng (shape (_value p)) slices idx)
              else zero).
Proof.
  intros [Hsh _] H. unfold LocalGaussian.apply in H.
  unfold bind at 1 in H. unfold get_self in H. simpl in H.
  unfold bind at 1 in H. unfold get_arrays in H. simpl in H.
  apply bind_Ok in H as (data & w1 & Hdata & H).
  unfold on_rng in Hdata. simpl in Hdata.
  destruct (LocalGaussian.noisy_data self (_value p) rng) as [r rng2] eqn:Hrun.
  simplify_eq.
  pose proof Hrun as Hinv.
  apply (noisy_data_inv _ _ _ _ _ Hsh) in Hinv as (slices & rng1 & Hsl & _ & Hlen & Hk).
  unfold update_first in H. simpl in H. simplify_eq.
  exists slices, rng1, data. simpl. repeat (split; [done |]). done.
Qed.

(** C9, as the code has it.  After a successful [LocalGaussian.apply] on a
    valid array, with an addition for which zero is neutral on the left, the
    array handed to the setter is zero at every position outside the drawn
    window and, inside the window, the draw of the normal stream made for
    that position.  It is written relative to the parameter itself, so the
    previous standardized data are kept: every element of the
    representation is its previous value plus the element of that array. *)
Theorem LocalGaussian_writes_zeros_and_noise (self : LocalGaussian.t)
    (p : Array F) (rng : RandomState F) (w' : World LocalGaussian.t F) :
  (∀ x : F, add zero x = x) →
  wf_ndarray (_value p) →
  LocalGaussian.apply (mkWorld self rng [p]) = (Ok (), w') →
  ∃ slices rng1 data p',
    _make_slices (shape (_value p)) (LocalGaussian.resolve_axes self (shape (_value p)))
                 (LocalGaussian.size self) rng = (Ok slices, rng1) ∧
    LocalGaussian.noisy_data self (_value p) rng = (Ok data, random_state w') ∧
    length (buf data) = Z.to_nat (size (_value p)) ∧
    arrays w' = [p'] ∧
    ∀ k : nat, (k < Z.to_nat (size (_value p)))%nat →
      let idx := unravel (shape (_value p)) (Z.of_nat k) in
      let written := if in_window (shape (_value p)) slices idx
                     then noise_at rng (shape (_value p)) slices idx
                     else zero in
      buf data !! k = Some written ∧
      ∀ x, standardized p !! k = Some x →
           standardized p' !! k = Some (add x written).
Proof.
  intros Hadd Hwf H.
  apply LocalGaussian_apply_inv in H
    as (slices & rng1 & data & Hsl & Hrun & Hw & Hlen & Hk); [| done].
  exists slices, rng1, data, (_internal_set_standardized_data (buf data) p p).
  repeat (split; [done |]).
  intros k Hlt idx written.
  assert (buf data !! k = Some written) as Hd.
  { rewrite (Hk k Hlt). simpl. fold idx. unfold written.
    destruct (in_window _ _ _); [by rewrite Hadd | done]. }
  split; [done |]. intros x Hx.
  unfold _internal_set_standardized_data. simpl.
  by rewrite lookup_zip_with, Hx, Hd.
Qed.

(** C1. A successful [LocalGaussian.apply] on a valid array whose
    standardized representation has one element per element of the value,
    with an addition for which zero is neutral, modifies the standardized
    representation inside the drawn window only: every element outside the
    window is what it was, and every element inside is what it was plus the
    draw of the normal stream made for its position. *)
Theorem LocalGaussian_modifies_window_only (self : LocalGaussian.t)
    (p : Array F) (rng : RandomState F) (w' : World LocalGaussian.t F) :
  (∀ x : F, add zero x = x) → (∀ x : F, add x zero = x) →
  wf_ndarray (_value p) →
  length (standardized p) = Z.to_nat (size (_value p)) →
  LocalGaussian.apply (mkWorld self rng [p]) = (Ok (), w') →
  ∃ slices rng1 p',
    _make_slices (shape (_value p)) (LocalGaussian.resolve_axes self (shape (_value p)))
                 (LocalGaussian.size self) rng = (Ok slices, rng1) ∧
    arrays w' = [p'] ∧
    length (standardized p') = length (standardized p) ∧
    outside_window_unchanged (shape (_value p)) slices
                             (standardized p) (standardized p') ∧
    ∀ (k : nat) x,
      standardized p !! k = Some x →
      in_window (shape (_value p)) slices
                (unravel (shape (_value p)) (Z.of_nat k)) = true →
      standardized p' !! k =
        Some (add x (noise_at rng (shape (_value p)) slices
                              (unravel (shape (_value p)) (Z.of_nat k)))).
Proof.
  intros Hleft Hright Hwf Hstd H.
  apply LocalGaussian_apply_inv in H
    as (slices & rng1 & data & Hsl & Hrun & Hw & Hlen & Hk); [| done].
  exists slices, rng1, (_internal_set_standardized_data (buf data) p p).
  split; [done |]. split; [done |].
  unfold _internal_set_standardized_data. simpl.
  split; [rewrite length_zip_with; lia |]. split.
  - intros k Hlt Hout. rewrite lookup_zip_with.
    destruct (standardized p !! k) as [x|] eqn:Hx; [| done]. simpl.
    rewrite (Hk k) by lia. simpl. rewrite Hout. simpl. by rewrite Hright.
  - intros k x Hx Hin. rewrite lookup_zip_with, Hx. simpl.
    apply lookup_lt_Some in Hx as Hlt.
    rewrite (Hk k) by lia. simpl. rewrite Hin. simpl. by rewrite Hleft.
Qed.

End local_gaussian_theorems.

(** ** No write before a failure *)

Section frame.
Context {O F : Type}.

Lemma reads_only_fails_clean {A} (m : M (World O F) A) :
  reads_only m → fails_clean m.
Proof. intros H w e w' Hrun. by eapply H. Qed.

Lemma fails_clean_bind {A B} (m : M (World O F) A) (k : A → M (World O F) B) :
  reads_only m → (∀ a, fails_clean (k a)) → fails_clean (bind m k).
Proof.
  intros Hm Hk w e w' Hrun.
  apply bind_Raise in Hrun as [Hrun | (a & w1 & Hrun & Hcont)].
  - by eapply Hm.
  - rewrite (Hk a _ _ _ Hcont). by eapply Hm.
Qed.

Lemma reads_only_bind {A B} (m : M (World O F) A) (k : A → M (World O F) B) :
  reads_only m → (∀ a, reads_only (k a)) → reads_only (bind m k).
Proof.
  intros Hm Hk w r w' Hrun. unfold bind in Hrun.
  destruct (m w) as [[a|e] w1] eqn:Hmw.
  - rewrite (Hk a _ _ _ Hrun). by eapply Hm.
  - simplify_eq. by eapply Hm.
Qed.

Lemma reads_only_ret {A} (a : A) : reads_only (O:=O) (F:=F) (ret a).
Proof. intros w r w' H. unfold ret in H. by simplify_eq. Qed.

Lemma reads_only_raise {A} e : reads_only (O:=O) (F:=F) (raise (A:=A) e).
Proof. intros w r w' H. unfold raise in H. by simplify_eq. Qed.

Lemma reads_only_get_self : reads_only (O:=O) (F:=F) get_self.
Proof. intros w r w' H. unfold get_self in H. by simplify_eq. Qed.

Lemma reads_only_get_arrays : reads_only (O:=O) (F:=F) get_arrays.
Proof. intros w r w' H. unfold get_arrays in H. by simplify_eq. Qed.

Lemma reads_only_on_rng {A} (m : Rand F A) : reads_only (O:=O) (on_rng m).
Proof.
  intros w r w' H. unfold on_rng in H.
  destruct (m (random_state w)). by simplify_eq.
Qed.

Lemma reads_only_on_self {A} (m : M O A) : reads_only (F:=F) (on_self m).
Proof.
  intros w r w' H. unfold on_self in H.
  destruct (m (self w)). by simplify_eq.
Qed.

Lemma reads_only_of_option {A} e (o : option A) :
  reads_only (O:=O) (F:=F) (of_option e o).
Proof. destruct o; [apply reads_only_ret | apply reads_only_raise]. Qed.

Lemma fails_clean_update_first (f : Array F → Array F) :
  fails_clean (O:=O) (update_first f).
Proof.
  intros w e w' H. unfold update_first in H.
  destruct (arrays w) eqn:Ha; by simplify_eq.
Qed.

Lemma fails_clean_Mutation_apply
    (_apply_array : list (ndarray F) → M (World O F) (ndarray F)) :
  (∀ l, reads_only (_apply_array l)) → fails_clean (Mutation_apply _apply_array).
Proof.
  intros H. unfold Mutation_apply.
  apply fails_clean_bind; [apply reads_only_get_arrays |]. intros l.
  apply fails_clean_bind; [apply H |]. intros v.
  apply fails_clean_update_first.
Qed.

End frame.

Section frame_operators.
Context {F : Type} `{!Numeric F, !External F}.

Lemma Crossover_apply_fails_clean : fails_clean (F:=F) Crossover.apply.
Proof.
  unfold Crossover.apply.
  apply fails_clean_bind; [apply reads_only_get_self |]. intros op.
  apply fails_clean_bind; [apply reads_only_get_arrays |]. intros l.
  apply fails_clean_bind; [apply reads_only_on_rng |]. intros v.
  apply fails_clean_bind; [apply reads_only_of_option |]. intros p.
  apply fails_clean_update_first.
Qed.

Lemma Translation_apply_fails_clean : fails_clean (F:=F) Translation.apply.
Proof.
  apply fails_clean_Mutation_apply. intros l.
  apply reads_only_bind; [apply reads_only_get_self |]. intros op.
  apply reads_only_on_rng.
Qed.

Lemma LocalGaussian_apply_fails_clean : fails_clean (F:=F) LocalGaussian.apply.
Proof.
  unfold LocalGaussian.apply.
  apply fails_clean_bind; [apply reads_only_get_self |]. intros op.
  apply fails_clean_bind; [apply reads_only_get_arrays |]. intros l.
  destruct l as [|p [|q l]];
    try (apply reads_only_fails_clean, reads_only_raise).
  apply fails_clean_bind; [apply reads_only_on_rng |]. intros data.
  apply fails_clean_update_first.
Qed.

Lemma TunedTranslation_apply_fails_clean :
  fails_clean (F:=F) TunedTranslation.apply.
Proof.
  apply fails_clean_Mutation_apply. intros l. apply reads_only_on_self.
Qed.

Lemma run_as_arrays {O} (inj : O → Operator F) (m : M (World O F) unit) op w e w' :
  fails_clean m → run_as inj m op w = (Raise e, w') → arrays w' = arrays w.
Proof.
  intros Hm H. unfold run_as in H.
  destruct (m _) as [r w1] eqn:Hrun. simplify_eq. simpl.
  by apply Hm in Hrun.
Qed.

(** C6. Whenever the [apply] of an operator fails, whatever the error, the
    array parameters are what they were before the call: every error is
    raised before the one write to [arrays[0]]. *)
Theorem apply_failure_leaves_parameters (w w' : World (Operator F) F) (e : PyError) :
  Operator_apply w = (Raise e, w') → arrays w' = arrays w.
Proof.
  unfold Operator_apply. intros H.
  destruct (self w) as [op|op|op|op]; eapply run_as_arrays; try exact H.
  - apply Crossover_apply_fails_clean.
  - apply Translation_apply_fails_clean.
  - apply LocalGaussian_apply_fails_clean.
  - apply TunedTranslation_apply_fails_clean.
Qed.

End frame_operators.

(** ** Double precision: the cube root of 64

    With 127 elements and three axes line 78 evaluates [64.0 ** (1 / 3)].
    The double nearest to one third is [p / 2 ^ 54] for
    [p = 6004799503160661], just below one third, so the power is just below
    4.  The lemmas below show, in exact integer arithmetic, that it lies
    strictly between the two middles that separate the last double below 4
    from its neighbours: that double is the nearest one. *)

Lemma bernoulli_below (N : Z) :
  2 ≤ N → ∀ n, 2 ≤ n → N ^ n * (N - n) < N * (N - 1) ^ n.
Proof.
  intros HN n Hn. pattern n. apply (Zlt_lower_bound_ind _ 2); [| exact Hn].
  clear n Hn. intros n IH Hn.
  destruct (Z.eq_dec n 2) as [-> | Hne].
  - rewrite !Z.pow_2_r. nia.
  - assert (2 ≤ n - 1 < n) as Hm by lia. specialize (IH (n - 1) Hm).
    replace n with (Z.succ (n - 1)) at 1 3 by lia.
    rewrite !Z.pow_succ_r by lia.
    assert (0 < N ^ (n - 1)) as Hpos by (apply Z.pow_pos_nonneg; lia).
    assert (0 ≤ (N - 1) ^ (n - 1)) as Hpos' by (apply Z.pow_nonneg; lia).
    set (a := N ^ (n - 1)) in *. set (b := (N - 1) ^ (n - 1)) in *.
    replace (N - (n - 1)) with (N - n + 1) in IH by lia.
    assert (a * (N - n + 1) * (N - 1) < N * b * (N - 1)) as H1
      by (apply Z.mul_lt_mono_pos_r; lia).
    nia.
Qed.

Lemma bernoulli_above (N c : Z) :
  1 ≤ N → 0 ≤ c → ∀ n, 0 ≤ n → N ^ n * (N + c * n) ≤ N * (N + c) ^ n.
Proof.
  intros HN Hc n Hn. pattern n. apply natlike_ind; [| | exact Hn]; clear n Hn.
  - rewrite !Z.pow_0_r. lia.
  - intros n Hn IH. rewrite !Z.pow_succ_r by lia.
    assert (0 < N ^ n) as Hpos by (apply Z.pow_pos_nonneg; lia).
    set (a := N ^ n) in *. set (b := (N + c) ^ n) in *.
    assert (a * (N + c * n) * (N + c) ≤ N * b * (N + c)) as H1
      by (apply Z.mul_le_mono_nonneg_r; lia).
    nia.
Qed.

Lemma scaled_power (N p : Z) :
  0 ≤ N → 0 ≤ p → 6 * p + 2 = 2 * N →
  2 ^ 2 * ((2 ^ 6) ^ p * (2 ^ 52) ^ N) = (2 ^ 54) ^ N.
Proof.
  intros HN Hp Heq.
  rewrite <- !Z.pow_mul_r by lia. rewrite <- !Z.pow_add_r by lia.
  f_equal. lia.
Qed.

(** For [B = 2 ^ 54]: [(B - 3) ^ B < 64 ^ p * (2 ^ 52) ^ B < (B - 1) ^ B],
    where [4 * 64 ^ p * (2 ^ 52) ^ B] is [B ^ B]. *)
Lemma between_midpoints (B N p x s lo hi : Z) :
  B = 2 ^ 54 → N = B → x = 2 ^ 6 → s = 2 ^ 52 → 6 * p + 2 = 2 * N →
  lo = B - 3 → hi = B - 1 →
  lo ^ N < x ^ p * s ^ N < hi ^ N.
Proof.
  intros HB HN -> -> Hp -> ->.
  assert (∃ h, B = h + h ∧ 2 ≤ h) as (h & HBh & Hh).
  { exists 9007199254740992. rewrite HB. split; [reflexivity | lia]. }
  assert (4 * ((2 ^ 6) ^ p * (2 ^ 52) ^ N) = B ^ N) as Hscaled.
  { pose proof (scaled_power N p) as Hs. rewrite <- HB in Hs.
    change (2 ^ 2) with 4 in Hs. clear HB. apply Hs; [lia | lia | exact Hp]. }
  clear HB.
  set (T := (2 ^ 6) ^ p * (2 ^ 52) ^ N) in *.
  assert (0 < B ^ N) as HposB by (apply Z.pow_pos_nonneg; lia).
  split.
  - pose proof (bernoulli_above B 3 ltac:(lia) ltac:(lia) N ltac:(lia)) as Habove.
    replace (B + 3 * N) with (4 * B) in Habove by lia.
    assert (4 * B ^ N ≤ (B + 3) ^ N) as H4 by nia.
    assert ((B - 3) ^ N * (B + 3) ^ N < B ^ N * B ^ N) as Hprod.
    { rewrite <- !Z.pow_mul_l. apply Z.pow_lt_mono_l; nia. }
    assert (0 ≤ (B - 3) ^ N) as Hnn by (apply Z.pow_nonneg; lia).
    nia.
  - pose proof (bernoulli_below B ltac:(lia) h Hh) as Hbelow.
    replace (B - h) with h in Hbelow by lia.
    assert (0 ≤ (B - 1) ^ h) as Hnn by (apply Z.pow_nonneg; lia).
    assert (B ^ h < 2 * (B - 1) ^ h) as Hhalf by nia.
    assert (0 < B ^ h) as Hposh by (apply Z.pow_pos_nonneg; lia).
    assert (N = h + h) as HNh by lia.
    rewrite HNh in Hscaled |- *. rewrite !Z.pow_add_r in * by lia.
    nia.
Qed.

(** The double [m * 2 ^ -51] that [float_pow] returns for
    [64.0 ** (1 / 3)] is the nearest to the power: with [1 / 3] the double
    [p * 2 ^ -54], the power [64 ^ (p / 2 ^ 54)] lies strictly between
    [(2 * m - 1) * 2 ^ -52] and [(2 * m + 1) * 2 ^ -52].  The three numbers
    are compared after scaling by [2 ^ 52] and raising to [2 ^ 54]. *)
Lemma default_size_rounding :
  (2 * (float_pow (true_div 128 2) (true_div 1 3)).1 - 1) ^ (2 ^ 54)
  < 64 ^ (true_div 1 3).1 * (2 ^ 52) ^ (2 ^ 54)
  < (2 * (float_pow (true_div 128 2) (true_div 1 3)).1 + 1) ^ (2 ^ 54).
Proof.
  apply (between_midpoints (2 ^ 54)); try reflexivity; vm_compute; reflexivity.
Qed.

(** ** The theorems at concrete inputs *)

Lemma make_slices_window_witness :
  0 < 2 ∧
  ∃ slices, (_make_slices [4; 4] [1] 2 rng0).1 = Ok slices ∧ length slices = 2%nat.
Proof.
  split; [lia |].
  destruct (make_slices_window [4; 4] [1] 2 rng0) as [_ H].
  - lia.
  - intros a s Ha _. right. destruct a as [|[|a]]; simpl in Ha; simplify_eq; lia.
  - destruct H as (slices & Hrun & Hlen & _).
    + intros a s Ha _. destruct a as [|[|a]]; simpl in Ha; simplify_eq; lia.
    + exists slices. split; [exact Hrun | exact Hlen].
Defined.

Lemma Crossover_window_size_witness :
  ∃ max_size clamped : Z, max_size = 8 ∧ clamped ≤ max_size.
Proof.
  destruct (Crossover_window_size (Crossover.mk (Some [1]) None false) A44 rng0)
    as [_ (m & c & Hm & _ & Hle & _)].
  - intros H. vm_compute in H. discriminate H.
  - forall_range.
  - exists m, c. split; [rewrite (Hm eq_refl); vm_compute; reflexivity | exact Hle].
Defined.

Lemma TunedTranslation_apply_array_shift_witness :
  ∃ shift r self',
    TunedTranslation._apply_array [A44] tuned0 = (Ok r, self') ∧ 1 ≤ shift ≤ 4 - 1 ∧
    weights (TunedTranslation.shift self') = np_roll_flat (mkarray [3] [7; 8; 9]) shift.
Proof.
  destruct (TunedTranslation_apply_array_shift tuned0 A44 4)
    as (shift & r & self' & ax & _ & Hrange & Hrun & _ & _ & _ & _ & _ & _ & _ & _ & Hw & _).
  - valid_array.
  - reflexivity.
  - reflexivity.
  - reflexivity.
  - simpl. lia.
  - valid_array.
  - exists shift, r, self'. split; [exact Hrun |]. split; [exact Hrange | exact Hw].
Defined.

Lemma Crossover_extent_1_size_draw_rejected_witness :
  shape A13 = shape B13 ∧
  Crossover._apply_array (Crossover.mk (Some [0]) (Some 2) false) [A13; B13] rng0 =
    (Raise (ValueError "low >= high"), rng0).
Proof.
  split; [reflexivity |].
  apply Crossover_extent_1_size_draw_rejected.
  - reflexivity.
  - reflexivity.
  - forall_range.
  - exists 0. split; [apply list_elem_of_singleton; reflexivity | reflexivity].
Defined.

Lemma apply_failure_leaves_parameters_witness :
  Operator_apply world3 =
    (Raise (Exception_ "Crossover can only be applied between 2 individuals"), world3) ∧
  arrays world3 = arrays world3.
Proof.
  split; [reflexivity |].
  apply (apply_failure_leaves_parameters world3 world3
           (Exception_ "Crossover can only be applied between 2 individuals")).
  reflexivity.
Defined.

Lemma Crossover_identical_inputs_witness :
  wf_ndarray A44 ∧
  ∃ rng', Crossover._apply_array (Crossover.mk (Some [1]) (Some 2) false)
            [A44; A44] rng0 = (Ok A44, rng').
Proof.
  assert (wf_ndarray A44) as Hwf by valid_array.
  split; [exact Hwf |].
  destruct (Crossover_identical_inputs (Crossover.mk (Some [1]) (Some 2) false)
              A44 rng0) as [_ Hreturns].
  - exact Hwf.
  - intros Hfft. discriminate Hfft.
  - apply Hreturns.
    + reflexivity.
    + intros H. vm_compute in H. discriminate H.
    + constructor; [| constructor]. exists 4. split; [reflexivity | lia].
    + vm_compute. discriminate.
Defined.

Lemma Translation_shift_inverse_witness :
  ∃ r, np_roll A5 (zip [2] [0]) = Ok r ∧
       np_roll r (zip (opposite_shifts (shape A5) [0] [2]) [0]) = Ok A5.
Proof.
  destruct (Translation_shift_inverse A5) as [H _].
  - valid_array.
  - apply (H [0] [2]).
    + reflexivity.
    + forall_range.
Defined.

Lemma LocalGaussian_writes_zeros_and_noise_witness :
  LocalGaussian.apply world_gauss = (Ok (), (LocalGaussian.apply world_gauss).2) ∧
  ∃ (data : ndarray Z) p', arrays (LocalGaussian.apply world_gauss).2 = [p'] ∧
                           length (buf data) = 4%nat.
Proof.
  assert (LocalGaussian.apply world_gauss = (Ok (), (LocalGaussian.apply world_gauss).2))
    as Hrun by (vm_compute; reflexivity).
  split; [exact Hrun |].
  destruct (LocalGaussian_writes_zeros_and_noise (LocalGaussian.mk None 1) P4 rng0
              (LocalGaussian.apply world_gauss).2)
    as (slices & rng1 & data & p' & _ & _ & Hlen & Hw & _).
  - intros x. reflexivity.
  - valid_array.
  - exact Hrun.
  - exists data, p'. split; [exact Hw | exact Hlen].
Defined.

Lemma LocalGaussian_modifies_window_only_witness :
  LocalGaussian.apply world_gauss = (Ok (), (LocalGaussian.apply world_gauss).2) ∧
  ∃ slices p', arrays (LocalGaussian.apply world_gauss).2 = [p'] ∧
    outside_window_unchanged [4] slices [5; 6; 7; 8] (standardized p').
Proof.
  assert (LocalGaussian.apply world_gauss = (Ok (), (LocalGaussian.apply world_gauss).2))
    as Hrun by (vm_compute; reflexivity).
  split; [exact Hrun |].
  destruct (LocalGaussian_modifies_window_only (LocalGaussian.mk None 1) P4 rng0
              (LocalGaussian.apply world_gauss).2)
    as (slices & rng1 & p' & _ & Hw & _ & Hout & _).
  - intros x. reflexivity.
  - intros x. simpl. lia.
  - valid_array.
  - reflexivity.
  - exact Hrun.
  - exists slices, p'. split; [exact Hw | exact Hout].
Defined.

Lemma make_slices_last_index_excluded_witness :
  _make_slices [4; 4] [1] 2 rng0 = (Ok [Slice 0 4; Slice 1 3], advance 1 rng0) ∧
  0 ≤ start (Slice 1 3) ∧ stop (Slice 1 3) - start (Slice 1 3) = 2 ∧
  stop (Slice 1 3) ≤ 4 - 1.
Proof.
  assert (_make_slices [4; 4] [1] 2 rng0 = (Ok [Slice 0 4; Slice 1 3], advance 1 rng0))
    as Hrun by (vm_compute; reflexivity).
  split; [exact Hrun |].
  destruct (make_slices_last_index_excluded (F:=Z)) as [H _].
  apply (H [4; 4] [1] 2 rng0 (advance 1 rng0) [Slice 0 4; Slice 1 3] 1%nat 4 (Slice 1 3)).
  - exact Hrun.
  - reflexivity.
  - apply list_elem_of_singleton. reflexivity.
  - lia.
  - reflexivity.
Defined.

(** ** Where the code departs from the specification *)

(** C3 as stated fails: for an array of 127 elements and three axes the
    default maximal size of line 78 is 3, where the exact
    [floor(((127 + 1) / 2) ^ (1 / 3))] is 4.  The double nearest to 1 / 3 is
    below 1 / 3, and the double nearest to 64 raised to it is the last one
    below 4. *)
Lemma Crossover_default_size_not_floor :
  size (np_zeros (F:=Z) [127; 1; 1]) = 127 ∧
  length (Crossover.resolve_axis (Crossover.mk None None false) [127; 1; 1]) = 3%nat ∧
  true_div 1 3 = (6004799503160661, -54) ∧
  float_pow (true_div 128 2) (true_div 1 3) = (9007199254740991, -51) ∧
  resolved_max_size (Crossover.mk None None false) (np_zeros (F:=Z) [127; 1; 1]) = 3 ∧
  spec_half_root (127 + 1) 3 = 4.
Proof. vm_compute. done. Qed.

(** C9 as stated fails: after [LocalGaussian.apply] on a parameter whose
    standardized representation is [5; 6; 7; 8], with the window [1, 2)
    drawn, position 0 is outside the window and holds 5 as before, not 0. *)
Lemma LocalGaussian_previous_data_kept :
  (_make_slices [4] (LocalGaussian.resolve_axes (LocalGaussian.mk None 1) [4]) 1 rng0).1
    = Ok [Slice 1 2] ∧
  in_window [4] [Slice 1 2] (unravel [4] 0) = false ∧
  ∃ w' p',
    LocalGaussian.apply world_gauss = (Ok (), w') ∧ arrays w' = [p'] ∧
    standardized P4 !! 0%nat = Some 5 ∧
    standardized p' !! 0%nat = Some 5 ∧
    standardized p' !! 0%nat ≠ Some zero.
Proof.
  split; [reflexivity |]. split; [reflexivity |].
  exists (LocalGaussian.apply world_gauss).2,
         (mkArray (mkarray [4] [5; 16; 7; 8]) (None, None) [5; 16; 7; 8]).
  split; [vm_compute; reflexivity |]. split; [reflexivity |].
  split; [reflexivity |]. split; [reflexivity |].
  intros H. discriminate H.
Qed.

(** C5 at a concrete input: on two arrays of shape (1, 3) with axis 0
    targeted, [Crossover._apply_array] does not raise the error of the
    window builder; the size draw is rejected before the builder runs. *)
Lemma Crossover_extent_1_not_builder_error :
  py_getitem (shape A13) 0 = Some 1 ∧
  (Crossover._apply_array (Crossover.mk (Some [0]) (Some 2) false) [A13; B13] rng0).1
    = Raise (ValueError "low >= high") ∧
  (Crossover._apply_array (Crossover.mk (Some [0]) (Some 2) false) [A13; B13] rng0).1
    ≠ Raise (ValueError "Cannot crossover on axis with size 1").
Proof.
  split; [reflexivity |]. split; [reflexivity |].
  intros H. vm_compute in H. discriminate H.
Qed.

(** * Further properties *)

(** ** The window builder *)

Lemma make_slices_from_untargeted {F} shape : ∀ a axes size (rng : RandomState F),
  (∀ i : nat, (i < length shape)%nat → Z.of_nat (a + i) ∉ axes) →
  make_slices_from a shape axes size rng = (Ok (Slice 0 <$> shape), rng).
Proof.
  induction shape as [|s shape IH]; intros a axes size rng Hout; [done |].
  cbn [make_slices_from].
  assert (py_in (Z.of_nat a) axes = false) as ->.
  { apply bool_decide_eq_false. specialize (Hout 0%nat).
    replace (a + 0)%nat with a in Hout by lia. apply Hout. simpl. lia. }
  erewrite bind_run; [| done].
  erewrite bind_run; [done |].
  apply IH. intros i Hi.
  replace (S a + i)%nat with (a + S i)%nat by lia. apply Hout. simpl. lia.
Qed.

Lemma make_slices_from_draw_rejected {F} shape : ∀ a axes size (rng : RandomState F),
  (∀ i s, shape !! i = Some s → Z.of_nat (a + i) ∈ axes → 1 < s) →
  (∃ i s, shape !! i = Some s ∧ Z.of_nat (a + i) ∈ axes ∧ s ≤ size) →
  (make_slices_from a shape axes size rng).1 = Raise (ValueError "high <= 0").
Proof.
  induction shape as [|s shape IH]; intros a axes size rng Hbig (i & s' & Hi & Hax & Hs').
  - by destruct i.
  - assert (Htail : ∀ (rng1 : RandomState F),
      (∃ i' s', shape !! i' = Some s' ∧ Z.of_nat (S a + i') ∈ axes ∧ s' ≤ size) →
      (make_slices_from (S a) shape axes size rng1).1 = Raise (ValueError "high <= 0")).
    { intros rng1 Hex. apply IH; [| done].
      intros j sj Hj Hjax. apply (Hbig (S j)); [done |].
      by replace (a + S j)%nat with (S a + j)%nat by lia. }
    cbn [make_slices_from]. destruct (py_in (Z.of_nat a) axes) eqn:Hin.
    + apply py_in_spec in Hin.
      assert (1 < s) as Hs.
      { apply (Hbig 0%nat); [done |]. by replace (a + 0)%nat with a by lia. }
      destruct (Z.leb_spec s 1); [lia |].
      destruct (Z.le_gt_cases s size) as [Hle | Hgt].
      * erewrite bind_fail; [done |].
        erewrite bind_fail; [done |]. apply randint_Raise. lia.
      * destruct i as [|i]; [simpl in Hi; simplify_eq; lia |].
        erewrite bind_run; last first.
        { erewrite bind_run; [| apply randint2_Ok; lia]. done. }
        unfold bind at 1.
        specialize (Htail (advance 1 rng)).
        destruct (make_slices_from (S a) shape axes size (advance 1 rng)) as [[sls|e] rng'].
        -- exfalso. assert (@Ok (list slice) sls = Raise (ValueError "high <= 0")) as Habs.
           { apply Htail. exists i, s'. split; [done |]. split; [| done].
             by replace (S a + i)%nat with (a + S i)%nat by lia. }
           discriminate Habs.
        -- apply Htail. exists i, s'. split; [done |]. split; [| done].
           by replace (S a + i)%nat with (a + S i)%nat by lia.
    + destruct i as [|i].
      { simpl in Hi. simplify_eq. replace (a + 0)%nat with a in Hax by lia.
        apply py_in_spec in Hax. congruence. }
      erewrite bind_run; [| done].
      unfold bind at 1.
      specialize (Htail rng).
      destruct (make_slices_from (S a) shape axes size rng) as [[sls|e] rng'].
      * exfalso. assert (@Ok (list slice) sls = Raise (ValueError "high <= 0")) as Habs.
        { apply Htail. exists i, s'. split; [done |]. split; [| done].
          by replace (S a + i)%nat with (a + S i)%nat by lia. }
        discriminate Habs.
      * apply Htail. exists i, s'. split; [done |]. split; [| done].
        by replace (S a + i)%nat with (a + S i)%nat by lia.
Qed.

Lemma make_slices_from_errors {F} shape : ∀ a axes size (rng rng' : RandomState F) e,
  make_slices_from a shape axes size rng = (Raise e, rng') →
  e = ValueError "Cannot crossover on axis with size 1" ∨ e = ValueError "high <= 0".
Proof.
  induction shape as [|s shape IH]; intros a axes size rng rng' e H; [discriminate |].
  cbn [make_slices_from] in H.
  apply bind_Raise in H as [H | (sl & rng1 & _ & H)].
  - destruct (py_in (Z.of_nat a) axes); [| discriminate].
    destruct (Z.leb_spec s 1).
    + unfold raise in H. simplify_eq. by left.
    + apply bind_Raise in H as [H | (st & rng1 & _ & H)]; [| discriminate].
      unfold randint, randint2 in H.
      destruct (s - size <=? 0); [| discriminate]. simplify_eq. by right.
  - apply bind_Raise in H as [H | (sls & rng2 & _ & H)]; [by eapply IH | discriminate].
Qed.

Section builder_extras.
Context {F : Type} `{!Numeric F}.

Lemma make_slices_from_window (shape axes : list Z) (size : Z)
    (rng rng' : RandomState F) (slices : list slice) :
  0 ≤ size → Forall (λ n, 0 ≤ n) shape →
  _make_slices shape axes size rng = (Ok slices, rng') →
  ∀ (a : nat) s, shape !! a = Some s →
    ∃ sl, slices !! a = Some sl ∧
          window_origin shape slices !! a = Some (start sl) ∧
          window_shape shape slices !! a =
            Some (if py_in (Z.of_nat a) axes then size else s).
Proof.
  intros Hsize Hnn Hrun a s Ha.
  apply make_slices_from_inv in Hrun as [_ Hspec].
  destruct (Hspec a s Ha) as (sl & Hsl & Hcase). simpl in Hcase.
  exists sl. split; [done |].
  unfold window_origin, window_shape. rewrite !lookup_zip_with, Ha, Hsl. simpl.
  pose proof (Forall_lookup_1 _ _ _ _ Hnn Ha) as Hs. simpl in Hs.
  unfold slice_bounds.
  destruct (py_in (Z.of_nat a) axes).
  - destruct Hcase as (_ & Hpos & Hstart & Hstop).
    pose proof (Z.mod_pos_bound
      (uniform_stream rng (uniform_pos rng + targeted_count axes 0 a)) (s - size) Hpos).
    simpl. destruct (Z.ltb_spec (start sl) 0), (Z.ltb_spec (stop sl) 0); try lia.
    split; f_equal; lia.
  - subst sl. simpl. destruct (Z.ltb_spec s 0); [lia |].
    split; f_equal; lia.
Qed.

(** X1. A successful [_make_slices] returns one range per dimension and
    consumes one integer draw per targeted dimension and nothing else: the
    random state it leaves is the one it received advanced by the number of
    targeted dimensions. *)
Theorem make_slices_draws (shape axes : list Z) (size : Z)
    (rng rng' : RandomState F) (slices : list slice) :
  _make_slices shape axes size rng = (Ok slices, rng') →
  length slices = length shape ∧
  rng' = advance (targeted_count axes 0 (length shape)) rng ∧
  (targeted_count axes 0 (length shape) ≤ length shape)%nat.
Proof.
  intros H. split; [by eapply make_slices_from_length |].
  split; [by apply make_slices_from_inv in H as [-> _] |].
  generalize 0%nat. clear. induction (length shape) as [|n IH]; intros a; simpl; [lia |].
  specialize (IH (S a)). destruct (py_in (Z.of_nat a) axes); lia.
Qed.

(** X2. Entries of [axes] that are negative or not below the number of
    dimensions match no dimension: when every entry is such, [_make_slices]
    returns the whole range of every dimension and draws nothing. *)
Theorem make_slices_ignores_other_axes (shape axes : list Z) (size : Z)
    (rng : RandomState F) :
  Forall (λ a, a < 0 ∨ Z.of_nat (length shape) ≤ a) axes →
  _make_slices shape axes size rng = (Ok (Slice 0 <$> shape), rng).
Proof.
  intros Hax. apply make_slices_from_untargeted. intros i Hi Hin.
  pose proof (proj1 (Forall_forall _ _) Hax _ Hin) as Hi'. simpl in Hi'. lia.
Qed.

(** X3. A window that does not fit is refused: when every targeted extent is
    2 at least and some targeted extent is at most [size], [_make_slices]
    raises the [ValueError] of [rng.randint] for an upper bound that is not
    positive. *)
Theorem make_slices_size_too_large (shape axes : list Z) (size : Z)
    (rng : RandomState F) :
  (∀ (a : nat) s, shape !! a = Some s → Z.of_nat a ∈ axes → 1 < s) →
  (∃ (a : nat) s, shape !! a = Some s ∧ Z.of_nat a ∈ axes ∧ s ≤ size) →
  (_make_slices shape axes size rng).1 = Raise (ValueError "high <= 0").
Proof. intros Hbig Hex. by apply make_slices_from_draw_rejected. Qed.

(** X4. [_make_slices] raises nothing but its own [ValueError] and the
    [ValueError] of [rng.randint] for an upper bound that is not positive. *)
Theorem make_slices_only_value_errors (shape axes : list Z) (size : Z)
    (rng rng' : RandomState F) (e : PyError) :
  _make_slices shape axes size rng = (Raise e, rng') →
  e = ValueError "Cannot crossover on axis with size 1" ∨ e = ValueError "high <= 0".
Proof. apply make_slices_from_errors. Qed.

(** X5. For a size that is not negative and extents that are not negative,
    the window selected by the ranges of a successful [_make_slices] has
    extent [size] along every targeted dimension and the full extent along
    the others, and it begins at the start of each range. *)
Theorem make_slices_window_shape (shape axes : list Z) (size : Z)
    (rng rng' : RandomState F) (slices : list slice) :
  0 ≤ size → Forall (λ n, 0 ≤ n) shape →
  _make_slices shape axes size rng = (Ok slices, rng') →
  ∀ (a : nat) s, shape !! a = Some s →
    ∃ sl, slices !! a = Some sl ∧
          window_origin shape slices !! a = Some (start sl) ∧
          window_shape shape slices !! a =
            Some (if py_in (Z.of_nat a) axes then size else s).
Proof. apply make_slices_from_window. Qed.

End builder_extras.

(** ** Crossover *)

Lemma py_getitem_None (t : list Z) i :
  ¬ (- Z.of_nat (length t) ≤ i < Z.of_nat (length t)) → py_getitem t i = None.
Proof.
  intros Hout. unfold py_getitem, normalize_index.
  destruct (Z.leb_spec 0 i), (Z.ltb_spec i (Z.of_nat (length t))); simpl; try lia;
    destruct (Z.leb_spec (- Z.of_nat (length t)) i), (Z.ltb_spec i 0); simpl; try lia; done.
Qed.

Lemma in_window_full shape : ∀ idx,
  in_bounds shape idx → in_window shape (Slice 0 <$> shape) idx = true.
Proof.
  induction shape as [|n shape IH]; intros idx Hb;
    inversion Hb as [|? j ? idx' Hj Hrest]; simplify_eq; [done |].
  cbn [fmap list_fmap in_window]. rewrite IH by done.
  unfold slice_bounds. simpl.
  destruct (Z.ltb_spec n 0); [lia |].
  rewrite Z.min_id.
  destruct (Z.leb_spec (Z.min 0 n) j), (Z.ltb_spec j n); try lia; try done.
Qed.

Section crossover_extras.
Context {F : Type} `{!Numeric F, !External F}.

Lemma extents_minus_1_IndexError shape axis :
  Exists (λ a, py_getitem shape a = None) axis →
  Crossover.extents_minus_1 shape axis = Raise IndexError.
Proof.
  induction axis as [|a axis IH]; intros Hex; [by apply Exists_nil in Hex |].
  simpl. destruct (py_getitem shape a) as [s|] eqn:Hs; [| done].
  apply Exists_cons in Hex as [Hex | Hex]; [congruence |].
  by rewrite IH.
Qed.

(** What the settings are when they are computed. *)
Lemma settings_success (self : Crossover.t) (a0 : ndarray F) axis size
    (rng rng1 : RandomState F) :
  Crossover.settings self a0 rng = (Ok (axis, size), rng1) →
  axis = Crossover.resolve_axis self (shape a0) ∧ axis ≠ [] ∧
  ∃ xs, Crossover.extents_minus_1 (shape a0) axis = Ok xs ∧
        let c := foldl Z.min (resolved_max_size self a0) xs in
        (c = 1 ∧ size = 1 ∧ rng1 = rng) ∨
        (1 < c ∧ rng1 = advance 1 rng ∧
         size = 1 + uniform_stream rng (uniform_pos rng) `mod` (c - 1)).
Proof.
  intros H. pose proof H as Hrun. unfold Crossover.settings in H.
  apply bind_Ok in H as (m & rng2 & _ & H).
  apply bind_Ok in H as (xs & rng3 & Hxs & H).
  apply bind_Ok in H as (clamped & rng4 & Hmin & H).
  apply bind_Ok in H as (sz & rng5 & _ & H).
  unfold ret in H. simplify_eq.
  unfold of_result in Hxs, Hmin.
  assert (Hext : Crossover.extents_minus_1 (shape a0)
                   (Crossover.resolve_axis self (shape a0)) = Ok xs) by congruence.
  assert (Hpm : Crossover.py_min m xs = Ok clamped) by congruence.
  clear Hxs Hmin.
  assert (Crossover.resolve_axis self (shape a0) ≠ []) as Hne.
  { intros Heq. rewrite Heq in Hext. simpl in Hext. by simplify_eq. }
  split; [done |]. split; [done |]. exists xs. split; [done |].
  rewrite (settings_unfold self a0 xs rng Hne Hext) in Hrun. simpl in Hrun.
  destruct (Z.eqb_spec (foldl Z.min (resolved_max_size self a0) xs) 1) as [Hc|Hc].
  - unfold bind, ret in Hrun. simplify_eq. by left.
  - apply bind_Ok in Hrun as (v & rng6 & Hdraw & Hret). unfold ret in Hret. simplify_eq.
    apply randint2_inv in Hdraw as (Hlt & -> & -> & _). right. done.
Qed.

Lemma Crossover_apply_array_elements (self : Crossover.t) (a0 a1 r : ndarray F)
    (rng rng' : RandomState F) :
  Crossover.fft self = false →
  wf_ndarray a0 → wf_ndarray a1 →
  Crossover._apply_array self [a0; a1] rng = (Ok r, rng') →
  ∃ axis size rng1 slices,
    Crossover.settings self a0 rng = (Ok (axis, size), rng1) ∧
    _make_slices (shape a0) axis size rng1 = (Ok slices, rng') ∧
    shape r = shape a0 ∧ length (buf r) = length (buf a0) ∧
    ∀ (k : nat) x, buf a0 !! k = Some x →
      buf r !! k = if in_window (shape a0) slices (unravel (shape a0) (Z.of_nat k))
                   then buf a1 !! k else Some x.
Proof.
  intros Hfft Hwf0 Hwf1 Hrun.
  apply Crossover_apply_array_inv in Hrun
    as (b0 & b1 & post & axis & size & rng1 & slices & Hcases & Hshape & Hset & Hsl & ->).
  destruct Hcases as [(_ & -> & -> & ->) | (ax & Hf & _)]; [| congruence].
  exists axis, size, rng1, slices. unfold id. split; [done |]. split; [done |].
  split; [done |]. split; [by rewrite setitem_length |].
  intros k x Hk. rewrite np_copy_id.
  apply setitem_getitem_lookup; try done.
  - by eapply make_slices_from_length.
  - destruct Hwf0 as [_ ->], Hwf1 as [_ ->]. by rewrite Hshape.
Qed.

(** X6. Without the spectral flag, on two valid arrays,
    [Crossover._apply_array] returns an array of the shape of the inputs in
    which every element is the element of the second array at the same
    position inside the drawn window, and of the first array outside. *)
Theorem Crossover_result_elements (self : Crossover.t) (a0 a1 r : ndarray F)
    (rng rng' : RandomState F) :
  Crossover.fft self = false →
  wf_ndarray a0 → wf_ndarray a1 →
  Crossover._apply_array self [a0; a1] rng = (Ok r, rng') →
  ∃ axis size rng1 slices,
    Crossover.settings self a0 rng = (Ok (axis, size), rng1) ∧
    _make_slices (shape a0) axis size rng1 = (Ok slices, rng') ∧
    shape r = shape a0 ∧ length (buf r) = length (buf a0) ∧
    ∀ (k : nat) x, buf a0 !! k = Some x →
      buf r !! k = if in_window (shape a0) slices (unravel (shape a0) (Z.of_nat k))
                   then buf a1 !! k else Some x.
Proof. apply Crossover_apply_array_elements. Qed.

(** X7. The size drawn by [Crossover] is 1 at least, and unless it is 1 it
    stays strictly below the configured maximum and below the extent minus 1
    of every axis: the window never reaches the maximum it was given.  The
    settings consume at most one integer draw. *)
Theorem Crossover_size_below_max (self : Crossover.t) (a0 : ndarray F)
    (axis : list Z) (size : Z) (rng rng1 : RandomState F) :
  Crossover.settings self a0 rng = (Ok (axis, size), rng1) →
  1 ≤ size ∧
  (size = 1 ∨
   ((∀ m, Crossover.max_size self = Some m → size ≤ m - 1) ∧
    ∀ a, a ∈ axis → ∃ s, py_getitem (shape a0) a = Some s ∧ size ≤ s - 2)) ∧
  (rng1 = rng ∨ rng1 = advance 1 rng).
Proof.
  intros H. apply settings_success in H as (-> & Hne & xs & Hxs & Hcase).
  apply extents_minus_1_Ok in Hxs.
  destruct (foldl_min_le (resolved_max_size self a0) xs) as [Hle Hall].
  simpl in Hcase. destruct Hcase as [(Hc & -> & ->) | (Hc & -> & ->)].
  - split; [lia |]. split; [by left | by left].
  - pose proof (Z.mod_pos_bound (uniform_stream rng (uniform_pos rng))
                  (foldl Z.min (resolved_max_size self a0) xs - 1)) as Hmod.
    split; [lia |]. split; [| by right]. right. split.
    + intros m Hm.
      assert (resolved_max_size self a0 = m) as Hr
        by (unfold resolved_max_size; by rewrite Hm).
      lia.
    + intros a Ha. apply list_elem_of_lookup in Ha as [i Hi].
      destruct (Forall2_lookup_l _ _ _ _ _ Hxs Hi) as (x & Hx & Hget).
      exists (x + 1). split; [done |].
      pose proof (Forall_lookup_1 _ _ _ _ Hall Hx) as Hcx. simpl in Hcx. lia.
Qed.

(** X8. Axes given as negative numbers bound the size but select nothing:
    with only negative axes configured and without the spectral flag,
    whenever [Crossover._apply_array] returns on two valid arrays it returns
    the second array whole. *)
Theorem Crossover_negative_axes_take_second (self : Crossover.t) (axes : list Z)
    (a0 a1 r : ndarray F) (rng rng' : RandomState F) :
  Crossover.fft self = false →
  Crossover.axis self = Some axes → Forall (λ a, a < 0) axes →
  wf_ndarray a0 → wf_ndarray a1 →
  Crossover._apply_array self [a0; a1] rng = (Ok r, rng') →
  r = a1.
Proof.
  intros Hfft Haxis Hneg Hwf0 Hwf1 Hrun.
  pose proof Hrun as Hinv.
  apply Crossover_apply_array_inv in Hinv
    as (b0 & b1 & post & axis & size & rng1 & slices & Hcases & Hshape & Hset & Hsl & _).
  destruct Hcases as [(_ & -> & -> & ->) | (ax & Hf & _)]; [| congruence].
  destruct (Crossover_apply_array_elements self a0 a1 r rng rng' Hfft Hwf0 Hwf1 Hrun)
    as (axis' & size' & rng1' & slices' & Hset' & Hsl' & Hshr & Hlen & Hk).
  rewrite Hset in Hset'. simplify_eq.
  rewrite Hsl in Hsl'. simplify_eq.
  apply settings_success in Hset as (-> & _).
  unfold Crossover.resolve_axis in Hsl. rewrite Haxis in Hsl.
  unfold _make_slices in Hsl. rewrite make_slices_from_untargeted in Hsl; last first.
  { intros i _ Hin. pose proof (proj1 (Forall_forall _ _) Hneg _ Hin) as Hi.
    simpl in Hi. lia. }
  simplify_eq.
  destruct r as [shr bufr], a1 as [sh1 buf1]. simpl in *. f_equal; [congruence |].
  assert (length (buf a0) = length buf1) as Hlen01.
  { destruct Hwf0 as [_ ->], Hwf1 as [_ Hl1]. simpl in Hl1. by rewrite Hl1, Hshape. }
  apply list_eq. intros k.
  destruct (buf a0 !! k) as [x|] eqn:Hx.
  - rewrite (Hk k x Hx), in_window_full; [done |].
    apply unravel_in_bounds; [by destruct Hwf0 |].
    apply lookup_lt_Some in Hx. destruct Hwf0 as [Hnn Hl0]. lia.
  - apply lookup_ge_None in Hx.
    rewrite !lookup_ge_None_2; [done | lia | lia].
Qed.

(** X9. [Crossover._apply_array] checks its inputs before it draws: any
    number of arrays other than 2 raises the [Exception] of the arity, and,
    without the spectral flag, two arrays of different shapes fail the
    assertion; the random state is left as it was. *)
Theorem Crossover_input_checks (self : Crossover.t) (rng : RandomState F) :
  (∀ arrays : list (ndarray F), length arrays ≠ 2%nat →
     Crossover._apply_array self arrays rng =
       (Raise (Exception_ "Crossover can only be applied between 2 individuals"), rng)) ∧
  (∀ a0 a1 : ndarray F, Crossover.fft self = false → shape a0 ≠ shape a1 →
     Crossover._apply_array self [a0; a1] rng =
       (Raise (AssertionError "Individuals should have the same shape"), rng)).
Proof.
  split.
  - intros [|a0 [|a1 [|a2 arrays]]] Hlen; simpl in Hlen; try done; lia.
  - intros a0 a1 Hfft Hne. unfold Crossover._apply_array. rewrite Hfft.
    erewrite bind_run; [| done].
    by rewrite bool_decide_eq_false_2.
Qed.

(** X10. Without the spectral flag and on two arrays of one shape,
    [Crossover._apply_array] rejects unusable axes before it draws: an empty
    tuple of axes is a [ZeroDivisionError] when no maximal size is configured
    and a [TypeError] when one is, and an axis that does not index the shape
    is an [IndexError]. *)
Theorem Crossover_axis_errors (self : Crossover.t) (a0 a1 : ndarray F)
    (rng : RandomState F) :
  Crossover.fft self = false → shape a0 = shape a1 →
  (Crossover.resolve_axis self (shape a0) = [] →
   Crossover._apply_array self [a0; a1] rng =
     (Raise (match Crossover.max_size self with
             | None => ZeroDivisionError
             | Some _ => TypeError
             end), rng)) ∧
  (Exists (λ a, ¬ (- ndim a0 ≤ a < ndim a0)) (Crossover.resolve_axis self (shape a0)) →
   Crossover._apply_array self [a0; a1] rng = (Raise IndexError, rng)).
Proof.
  intros Hfft Hshape. rewrite Crossover_apply_array_unfold by done. split.
  - intros Hnil. unfold Crossover.settings. rewrite Hnil. simpl.
    destruct (Crossover.max_size self); done.
  - intros Hex. unfold Crossover.settings.
    rewrite (extents_minus_1_IndexError (shape a0)); last first.
    { eapply Exists_impl; [exact Hex |]. intros a Ha. by apply py_getitem_None. }
    destruct (Crossover.max_size self) as [m|]; [done |].
    destruct (Z.eqb_spec (Z.of_nat (length (Crossover.resolve_axis self (shape a0)))) 0)
      as [Hz|_]; [| done].
    destruct (Crossover.resolve_axis self (shape a0)); [by apply Exists_nil in Hex |].
    simpl in Hz. lia.
Qed.

(** X11. Without the spectral flag, [Crossover._apply_array] returns on two
    arrays exactly when they have one shape, the axes are not empty, every
    axis indexes a dimension of extent 2 at least, and the maximal size,
    configured or default, is 1 at least. *)
Theorem Crossover_returns_iff (self : Crossover.t) (a0 a1 : ndarray F)
    (rng : RandomState F) :
  Crossover.fft self = false →
  (∃ r rng', Crossover._apply_array self [a0; a1] rng = (Ok r, rng')) ↔
  shape a0 = shape a1 ∧
  Crossover.resolve_axis self (shape a0) ≠ [] ∧
  Forall (λ a, ∃ s, py_getitem (shape a0) a = Some s ∧ 2 ≤ s)
         (Crossover.resolve_axis self (shape a0)) ∧
  1 ≤ resolved_max_size self a0.
Proof.
  intros Hfft. split.
  - intros (r & rng' & Hrun).
    apply Crossover_apply_array_inv in Hrun
      as (b0 & b1 & post & axis & size & rng1 & slices & Hcases & Hshape & Hset & _).
    destruct Hcases as [(_ & -> & -> & ->) | (ax & Hf & _)]; [| congruence].
    split; [done |].
    pose proof (settings_inv _ _ _ _ _ _ Hset) as [_ Hsize].
    apply settings_success in Hset as (-> & Hne & xs & Hxs & Hcase).
    split; [done |]. split.
    + apply Forall_forall. intros a Ha.
      destruct (Hsize a Ha) as (s & Hs & Hrange). exists s. split; [done | lia].
    + destruct (foldl_min_le (resolved_max_size self a0) xs) as [Hle _].
      simpl in Hcase. destruct Hcase as [(Hc & _) | (Hc & _)]; lia.
  - intros (Hshape & Hne & Hext & Hmax).
    by apply Crossover_apply_array_returns.
Qed.

(** X12. A successful [Crossover.apply] was handed exactly two parameters;
    it leaves the operator and the second parameter as they were and assigns
    to the first one the array computed by [_apply_array] from the two
    values, clipped to the bounds when the spectral flag is set and a bound
    is declared. *)
Theorem Crossover_apply_success (w w' : World Crossover.t F) :
  Crossover.apply w = (Ok (), w') →
  ∃ p0 p1 r rng',
    arrays w = [p0; p1] ∧
    Crossover._apply_array (self w) [_value p0; _value p1] (random_state w) = (Ok r, rng') ∧
    self w' = self w ∧ random_state w' = rng' ∧
    arrays w' =
      [set_value
         (if Crossover.fft (self w) &&
             (bool_decide (is_Some (bounds p0).1) || bool_decide (is_Some (bounds p0).2))
          then Clipping_forward (bounds p0).1 (bounds p0).2 r else r) p0;
       p1].
Proof.
  intros H. unfold Crossover.apply in H.
  unfold bind at 1 in H. unfold get_self at 1 in H.
  unfold bind at 1 in H. unfold get_arrays at 1 in H.
  apply bind_Ok in H as (r & w1 & Hrun & H).
  unfold on_rng in Hrun.
  destruct (Crossover._apply_array (self w) (_value <$> arrays w) (random_state w))
    as [res rng'] eqn:Happ.
  simplify_eq.
  destruct (arrays w) as [|p0 [|p1 [|p2 ps]]] eqn:Harr; try discriminate Happ.
  apply bind_Ok in H as (p & w2 & Hp & H).
  unfold of_option, ret in Hp. simpl in Hp. simplify_eq.
  unfold update_first in H. simpl in H. simplify_eq.
  exists p, p1, r, rng'. simpl. done.
Qed.

End crossover_extras.

(** ** Cyclic shifts, again *)

Lemma roll_offsets_length n pairs : ∀ acc o,
  roll_offsets n pairs acc = Ok o → length o = length acc.
Proof.
  induction pairs as [|[sh ax] pairs IH]; intros acc o H; simpl in H; [by simplify_eq |].
  destruct (normalize_index n ax) as [i|]; [| discriminate].
  apply IH in H. by rewrite length_alter in H.
Qed.

Lemma roll_offsets_app n p1 p2 acc :
  roll_offsets n (p1 ++ p2) acc =
    match roll_offsets n p1 acc with
    | Ok o => roll_offsets n p2 o
    | Raise e => Raise e
    end.
Proof.
  revert acc. induction p1 as [|[sh ax] p1 IH]; intros acc; simpl; [done |].
  destruct (normalize_index n ax); [apply IH | done].
Qed.

Lemma alter_add_zip_with sh (i : nat) : ∀ acc d : list Z,
  alter (Z.add sh) i (zip_with Z.add acc d) = zip_with Z.add (alter (Z.add sh) i acc) d.
Proof.
  induction i as [|i IH]; intros [|x acc] [|y d]; try done.
  - cbn [zip_with alter list_alter]. by rewrite Z.add_assoc.
  - cbn [zip_with alter list_alter]. f_equal. apply IH.
Qed.

(** Starting from other offsets adds them to the result. *)
Lemma roll_offsets_shift n pairs d : ∀ acc,
  roll_offsets n pairs (zip_with Z.add acc d) =
    match roll_offsets n pairs acc with
    | Ok o => Ok (zip_with Z.add o d)
    | Raise e => Raise e
    end.
Proof.
  induction pairs as [|[sh ax] pairs IH]; intros acc; simpl; [done |].
  destruct (normalize_index n ax) as [i|]; [| done].
  by rewrite alter_add_zip_with, IH.
Qed.

Lemma zip_with_add_zero (o : list Z) :
  zip_with Z.add (replicate (length o) 0) o = o.
Proof. induction o as [|x o IH]; simpl; [done |]. by rewrite IH. Qed.

Lemma roll_source_add n x y j :
  0 < n → roll_source n x (roll_source n y j) = roll_source n (y + x) j.
Proof.
  intros Hn. unfold roll_source. destruct (Z.eqb_spec n 0); [lia |].
  rewrite Zminus_mod_idemp_l, Zminus_mod_idemp_r.
  replace (j - y `mod` n - x) with (j - x - y `mod` n) by lia.
  rewrite !Zminus_mod_idemp_r. f_equal. lia.
Qed.

Lemma roll_index_add shape : ∀ o1 o2 idx,
  in_bounds shape idx →
  roll_index shape o1 (roll_index shape o2 idx) =
    roll_index shape (zip_with Z.add o2 o1) idx.
Proof.
  induction shape as [|n shape IH]; intros o1 o2 idx Hb;
    inversion Hb as [|? j ? idx' Hj Hrest]; simplify_eq; [done |].
  destruct o2 as [|y o2]; [by destruct o1 |].
  destruct o1 as [|x o1]; [done |]. simpl.
  rewrite roll_source_add by lia. f_equal. by apply IH.
Qed.

Lemma cancelling_opp shape offs :
  length offs = length shape → cancelling shape (Z.opp <$> offs) offs.
Proof.
  intros Hlen. split; [by rewrite length_fmap |]. split; [done |].
  intros i n x y _ Hx Hy. rewrite list_lookup_fmap, Hy in Hx. simpl in Hx. simplify_eq.
  replace (- y + y) with 0 by lia. apply Zmod_0_l.
Qed.

Section roll_extras.
Context {F : Type} `{!Numeric F}.

Lemma tabulate_ext {A} n (f g : Z → A) :
  (∀ k, 0 ≤ k < n → f k = g k) → tabulate n f = tabulate n g.
Proof.
  intros H. unfold tabulate. apply list_fmap_ext. intros i k Hk.
  apply lookup_seq in Hk as [-> Hlt]. apply H. lia.
Qed.

Lemma roll_by_add (a : ndarray F) o1 o2 :
  Forall (λ n, 0 ≤ n) (shape a) →
  length o2 = length (shape a) →
  roll_by (roll_by a o1) o2 = roll_by a (zip_with Z.add o2 o1).
Proof.
  intros Hnn Hl2. unfold roll_by at 1 3. simpl. f_equal.
  apply tabulate_ext. intros k Hk.
  assert (in_bounds (shape a) (unravel (shape a) k)) as Hb by by apply unravel_in_bounds.
  rewrite roll_by_item by by apply roll_index_in_bounds.
  by rewrite roll_index_add.
Qed.

Lemma roll_by_zero (a : ndarray F) :
  wf_ndarray a → roll_by a (replicate (length (shape a)) 0) = a.
Proof.
  intros Hwf. pose proof Hwf as [Hnn Hlen].
  destruct a as [sh b]. unfold roll_by. simpl in *. f_equal.
  apply list_eq. intros k.
  destruct (decide (k < Z.to_nat (prodZ sh))%nat) as [Hk|Hk].
  - rewrite tabulate_lookup by done.
    rewrite roll_index_zero by (apply unravel_in_bounds; [done | lia]).
    destruct (lookup_lt_is_Some_2 b k) as [x Hx]; [lia |].
    rewrite Hx. f_equal. by apply (item_unravel (mkarray sh b) k x).
  - rewrite !lookup_ge_None_2; [done | lia |]. rewrite tabulate_length. lia.
Qed.

(** Offsets that are multiples of the extents do not move anything. *)
Lemma roll_by_full_turns (a : ndarray F) offs :
  wf_ndarray a → cancelling (shape a) offs (replicate (length (shape a)) 0) →
  roll_by a offs = a.
Proof.
  intros Hwf Hc.
  rewrite <- (roll_by_zero (roll_by a offs)) by by apply roll_by_wf.
  by apply roll_by_inverse.
Qed.

(** A roll only rearranges the buffer. *)
Lemma roll_by_Permutation (a : ndarray F) offs :
  wf_ndarray a → length offs = length (shape a) →
  buf (roll_by a offs) ≡ₚ buf a.
Proof.
  intros [Hnn Hlen] Hoffs.
  set (n := Z.to_nat (prodZ (shape a))) in *.
  set (f := λ k : nat,
        Z.to_nat (ravel (shape a)
                    (roll_index (shape a) offs (unravel (shape a) (Z.of_nat k))))).
  assert (Hb : ∀ k, (k < n)%nat → in_bounds (shape a) (unravel (shape a) (Z.of_nat k))).
  { intros k Hk. apply unravel_in_bounds; [done | lia]. }
  assert (Hrb : ∀ k, (k < n)%nat →
            in_bounds (shape a)
              (roll_index (shape a) offs (unravel (shape a) (Z.of_nat k)))).
  { intros k Hk. apply roll_index_in_bounds; [done | by apply Hb]. }
  assert (buf (roll_by a offs) = (λ k, nth k (buf a) zero) <$> (f <$> seq 0 n)) as ->.
  { unfold roll_by, tabulate. simpl. by rewrite <- list_fmap_compose. }
  assert (buf a = (λ k, nth k (buf a) zero) <$> seq 0 n) as Hbuf.
  { apply list_eq. intros k. rewrite list_lookup_fmap.
    destruct (decide (k < n)%nat) as [Hk|Hk].
    - rewrite lookup_seq_lt by done. simpl. rewrite nth_lookup.
      destruct (lookup_lt_is_Some_2 (buf a) k) as [x Hx]; [lia |]. by rewrite Hx.
    - rewrite lookup_seq_ge by lia. apply lookup_ge_None_2. lia. }
  transitivity ((λ k, nth k (buf a) zero) <$> seq 0 n); [| by rewrite <- Hbuf].
  apply fmap_Permutation.
  apply submseteq_length_Permutation; [| by rewrite length_fmap].
  apply NoDup_submseteq.
  - apply NoDup_fmap_2_strong; [| apply NoDup_seq].
    intros x y Hx Hy Hxy. apply elem_of_seq in Hx, Hy.
    assert (x < n)%nat as Hxn by lia. assert (y < n)%nat as Hyn by lia.
    pose proof (ravel_bounds _ _ (Hrb x Hxn)). pose proof (ravel_bounds _ _ (Hrb y Hyn)).
    unfold f in Hxy. apply Z2Nat.inj in Hxy; [| lia | lia].
    apply (f_equal (unravel (shape a))) in Hxy.
    rewrite !unravel_ravel in Hxy by by apply Hrb.
    apply (f_equal (roll_index (shape a) (Z.opp <$> offs))) in Hxy.
    rewrite !roll_index_inverse in Hxy by (by apply cancelling_opp || by apply Hb).
    apply (f_equal (ravel (shape a))) in Hxy.
    rewrite !ravel_unravel in Hxy by (done || lia). lia.
  - intros x Hx. apply list_elem_of_fmap in Hx as (k & -> & Hk).
    apply elem_of_seq in Hk. apply elem_of_seq.
    assert (k < n)%nat as Hkn by lia.
    pose proof (ravel_bounds _ _ (Hrb k Hkn)). unfold f. lia.
Qed.

End roll_extras.

Lemma full_turns_cancelling shape offs :
  length offs = length shape →
  (∀ i n x, shape !! i = Some n → offs !! i = Some x → x `mod` n = 0) →
  cancelling shape offs (replicate (length shape) 0).
Proof.
  intros Hlen H. split; [done |]. split; [by rewrite length_replicate |].
  intros i n x y Hn Hx Hy. apply lookup_replicate in Hy as [-> _].
  rewrite Z.add_0_r. by eapply H.
Qed.

Lemma roll_offsets_full_turns shape pairs : ∀ acc,
  Forall (λ p, ∃ s, py_getitem shape p.2 = Some s ∧ p.1 `mod` s = 0) pairs →
  length acc = length shape →
  (∀ i n x, shape !! i = Some n → acc !! i = Some x → x `mod` n = 0) →
  ∃ o, roll_offsets (Z.of_nat (length shape)) pairs acc = Ok o ∧
       length o = length shape ∧
       ∀ i n x, shape !! i = Some n → o !! i = Some x → x `mod` n = 0.
Proof.
  induction pairs as [|[sh ax] pairs IH]; intros acc Hp Hlen Hacc; simpl.
  - by exists acc.
  - apply Forall_cons in Hp as [(s & Hs & Hsh) Hp]. simpl in Hs, Hsh.
    apply py_getitem_Some in Hs as (j & Hj & Hs). rewrite Hj.
    apply IH; [done | by rewrite length_alter |].
    intros i n x Hn Hx.
    destruct (decide (Z.to_nat j = i)) as [<-|Hne].
    + rewrite list_lookup_alter_eq in Hx.
      destruct (acc !! Z.to_nat j) as [x0|] eqn:Hx0; [| done].
      simpl in Hx. simplify_eq.
      rewrite Zplus_mod, Hsh, (Hacc _ _ _ Hs Hx0). apply Zmod_0_l.
    + rewrite list_lookup_alter_ne in Hx by done. by eapply Hacc.
Qed.

Section translation_extras.
Context {F : Type} `{!Numeric F}.

(** X13. Successive cyclic shifts add up: on an array with extents that are
    not negative, [np.roll] by the pairs [p1] and then by the pairs [p2] is
    [np.roll] by all of them at once, and fails when one of the two does. *)
Theorem np_roll_compose (a : ndarray F) (p1 p2 : list (Z * Z)) :
  Forall (λ n, 0 ≤ n) (shape a) →
  np_roll a (p1 ++ p2) =
    match np_roll a p1 with
    | Ok r1 => np_roll r1 p2
    | Raise e => Raise e
    end.
Proof.
  intros Hnn. unfold np_roll. rewrite roll_offsets_app.
  destruct (roll_offsets (ndim a) p1 (replicate (length (shape a)) 0)) as [o1|e] eqn:H1;
    [| done].
  pose proof (roll_offsets_length _ _ _ _ H1) as Hl1. rewrite length_replicate in Hl1.
  change (ndim (roll_by a o1)) with (ndim a).
  change (shape (roll_by a o1)) with (shape a).
  rewrite <- (zip_with_add_zero o1) at 1. rewrite Hl1, roll_offsets_shift.
  destruct (roll_offsets (ndim a) p2 (replicate (length (shape a)) 0)) as [o2|e] eqn:H2;
    [| done].
  pose proof (roll_offsets_length _ _ _ _ H2) as Hl2. rewrite length_replicate in Hl2.
  by rewrite roll_by_add.
Qed.

(** X14. A cyclic shift by whole turns changes nothing: [np.roll] of a valid
    array by shifts that are multiples of the extents of their axes, or by no
    shift at all, returns the array. *)
Theorem np_roll_full_turns (a : ndarray F) (pairs : list (Z * Z)) :
  wf_ndarray a →
  Forall (λ p, ∃ s, py_getitem (shape a) p.2 = Some s ∧ p.1 `mod` s = 0) pairs →
  np_roll a pairs = Ok a.
Proof.
  intros Hwf Hp. unfold np_roll, ndim.
  destruct (roll_offsets_full_turns (shape a) pairs (replicate (length (shape a)) 0) Hp)
    as (o & -> & Hlen & Ho).
  - by rewrite length_replicate.
  - intros i n x _ Hx. apply lookup_replicate in Hx as [-> _]. apply Zmod_0_l.
  - f_equal. apply roll_by_full_turns; [done |]. by apply full_turns_cancelling.
Qed.

(** [np.roll] returns a valid array of the same shape whose buffer is a
    rearrangement of the buffer it was given. *)
Lemma np_roll_Permutation (a r : ndarray F) pairs :
  wf_ndarray a → np_roll a pairs = Ok r →
  shape r = shape a ∧ wf_ndarray r ∧ buf r ≡ₚ buf a.
Proof.
  intros Hwf H. unfold np_roll in H.
  destruct (roll_offsets _ _ _) as [o|e] eqn:Ho; [| discriminate]. simplify_eq.
  apply roll_offsets_length in Ho. rewrite length_replicate in Ho.
  split; [done |]. split; [by apply roll_by_wf | by apply roll_by_Permutation].
Qed.

Lemma Translation_apply_array_inv (self : Translation.t) (data r : ndarray F)
    (rng rng' : RandomState F) :
  Translation._apply_array self [data] rng = (Ok r, rng') →
  ∃ axes v,
    Translation.axis self = Some axes ∧
    Translation.draw_shifts (shape data) axes rng = (Ok v, rng') ∧
    np_roll data (zip v axes) = Ok r.
Proof.
  intros H. unfold Translation._apply_array in H.
  apply bind_Ok in H as (axes & rng1 & Hax & H).
  apply bind_Ok in H as (v & rng2 & Hv & H).
  destruct (Translation.axis self) as [axes'|]; [| discriminate].
  unfold ret in Hax. simplify_eq. unfold of_result in H.
  exists axes, v. split; [done |]. split; congruence.
Qed.

Lemma draw_shifts_advance shape axis : ∀ shifts (rng rng' : RandomState F),
  Translation.draw_shifts shape axis rng = (Ok shifts, rng') →
  rng' = advance (length axis) rng ∧ length shifts = length axis.
Proof.
  induction axis as [|a axis IH]; intros shifts rng rng' H; simpl in H.
  - unfold ret in H. simplify_eq. by rewrite advance_0.
  - apply bind_Ok in H as (s & rng1 & Hs & H).
    apply bind_Ok in H as (v & rng2 & Hv & H).
    apply bind_Ok in H as (vs & rng3 & Hvs & H).
    unfold ret in H. simplify_eq.
    destruct (py_getitem shape a) as [s'|]; [| discriminate].
    unfold of_option, ret in Hs. simplify_eq.
    apply randint2_inv in Hv as (_ & -> & _).
    apply IH in Hvs as [-> Hlen]. simpl. by rewrite advance_S, Hlen.
Qed.

Lemma draw_shifts_Ok shape axis : ∀ (rng : RandomState F),
  Forall (λ a, ∃ s, py_getitem shape a = Some s ∧ 0 < s) axis →
  ∃ shifts rng', Translation.draw_shifts shape axis rng = (Ok shifts, rng').
Proof.
  induction axis as [|a axis IH]; intros rng Hax; simpl; [by eexists _, _ |].
  apply Forall_cons in Hax as [(s & Hs & Hpos) Hax].
  destruct (IH (advance 1 rng) Hax) as (vs & rng' & Hvs).
  eexists _, _. rewrite Hs.
  erewrite bind_run; [| done].
  erewrite bind_run; [| apply randint2_Ok; lia].
  erewrite bind_run; [| exact Hvs]. done.
Qed.

(** X15. [Translation._apply_array] on a valid array only moves elements:
    what it returns is a valid array of the same shape whose elements are
    those of the input, each as many times; and it consumes one integer draw
    per configured axis. *)
Theorem Translation_permutes (self : Translation.t) (data r : ndarray F)
    (rng rng' : RandomState F) :
  wf_ndarray data →
  Translation._apply_array self [data] rng = (Ok r, rng') →
  shape r = shape data ∧ wf_ndarray r ∧ buf r ≡ₚ buf data ∧
  ∃ axes, Translation.axis self = Some axes ∧ rng' = advance (length axes) rng.
Proof.
  intros Hwf H. apply Translation_apply_array_inv in H as (axes & v & Hax & Hv & Hroll).
  destruct (np_roll_Permutation _ _ _ Hwf Hroll) as (Hsh & Hwfr & Hperm).
  repeat (split; [done |]).
  exists axes. split; [done |]. by apply draw_shifts_advance in Hv as [-> _].
Qed.

(** X16. [Translation._apply_array] returns on one array exactly when axes
    are configured and every one of them indexes a dimension of positive
    extent; in particular it never returns when no axis is configured. *)
Theorem Translation_returns_iff (self : Translation.t) (data : ndarray F)
    (rng : RandomState F) :
  (∃ r rng', Translation._apply_array self [data] rng = (Ok r, rng')) ↔
  ∃ axes, Translation.axis self = Some axes ∧
          Forall (λ a, ∃ s, py_getitem (shape data) a = Some s ∧ 0 < s) axes.
Proof.
  split.
  - intros (r & rng' & H).
    apply Translation_apply_array_inv in H as (axes & v & Hax & Hv & _).
    exists axes. split; [done |].
    apply draw_shifts_inv in Hv. apply Forall_forall. intros a Ha.
    apply list_elem_of_lookup in Ha as [i Hi].
    destruct (Forall2_lookup_l _ _ _ _ _ Hv Hi) as (x & _ & s & Hs & Hrange).
    exists s. split; [done | lia].
  - intros (axes & Hax & Hvalid).
    destruct (draw_shifts_Ok (shape data) axes rng Hvalid) as (v & rng' & Hv).
    destruct (roll_offsets_cancelling (shape data) (zip v axes)
                (replicate (length (shape data)) 0) (replicate (length (shape data)) 0))
      as (o1 & _ & Ho1 & _).
    { apply Forall_forall. intros [x a] Hin. apply elem_of_zip_r in Hin. simpl.
      destruct (proj1 (Forall_forall _ _) Hvalid _ Hin) as (s & Hs & _).
      apply py_getitem_Some in Hs as (j & Hj & _). by eexists. }
    { apply cancelling_zero. }
    exists (roll_by data o1), rng'.
    unfold Translation._apply_array. rewrite Hax.
    erewrite bind_run; [| done].
    erewrite bind_run; [| exact Hv].
    unfold of_result, np_roll, ndim. by rewrite Ho1.
Qed.

(** X17. With a single axis configured, [Translation._apply_array] draws one
    shift in [[0, extent)] and returns the array in which the element at
    each index is the input element found [shift] positions earlier,
    cyclically, along that axis; a negative axis counts from the last
    dimension. *)
Theorem Translation_single_axis (self : Translation.t) (a : Z)
    (data r : ndarray F) (rng rng' : RandomState F) :
  Translation.axis self = Some [a] →
  Translation._apply_array self [data] rng = (Ok r, rng') →
  ∃ (ax : nat) (n : Z),
    normalize_index (ndim data) a = Some (Z.of_nat ax) ∧
    shape data !! ax = Some n ∧ 0 < n ∧
    rng' = advance 1 rng ∧ shape r = shape data ∧
    let shift := uniform_stream rng (uniform_pos rng) `mod` n in
    ∀ idx j, in_bounds (shape data) idx → idx !! ax = Some j →
      item r idx = item data (<[ax := (j - shift) `mod` n]> idx).
Proof.
  intros Haxis H.
  apply Translation_apply_array_inv in H as (axes & v & Hax & Hv & Hroll).
  rewrite Haxis in Hax. simplify_eq. simpl in Hv.
  apply bind_Ok in Hv as (n & rng1 & Hn & Hv).
  apply bind_Ok in Hv as (sh & rng2 & Hsh & Hv).
  unfold bind, ret in Hv. simplify_eq.
  destruct (py_getitem (shape data) a) as [n'|] eqn:Hget; [| discriminate].
  unfold of_option, ret in Hn. simplify_eq.
  apply randint2_inv in Hsh as (Hpos & -> & -> & _).
  apply py_getitem_Some in Hget as (j & Hj & Hlook).
  pose proof (normalize_index_Some _ _ _ Hj) as [_ Hjr].
  unfold np_roll, ndim in Hroll. simpl in Hroll. rewrite Hj in Hroll. simplify_eq.
  exists (Z.to_nat j), n.
  split; [unfold ndim; by rewrite Z2Nat.id by lia |].
  split; [done |]. split; [lia |]. split; [done |]. split; [done |].
  intros shift idx j' Hb Hj'. rewrite roll_by_item by done.
  rewrite (roll_index_single _ _ _ _ n j' Hb Hlook Hj').
  rewrite Z.add_0_l, Z.sub_0_r. done.
Qed.

End translation_extras.

(** ** LocalGaussian, again *)

Lemma prodZ_zero (l : list Z) : 0 ∈ l → prodZ l = 0.
Proof.
  induction l as [|x l IH]; intros Hin; [by apply elem_of_nil in Hin |].
  simpl. apply elem_of_cons in Hin as [<- | Hin]; [lia |]. rewrite IH by done. lia.
Qed.

Section local_gaussian_extras.
Context {F : Type} `{!Numeric F, !External F}.

Lemma noisy_data_run (self : LocalGaussian.t) (value data : ndarray F)
    (rng rng' : RandomState F) :
  LocalGaussian.noisy_data self value rng = (Ok data, rng') →
  ∃ slices,
    _make_slices (shape value) (LocalGaussian.resolve_axes self (shape value))
                 (LocalGaussian.size self) rng =
      (Ok slices,
       advance (targeted_count (LocalGaussian.resolve_axes self (shape value)) 0
                               (length (shape value))) rng) ∧
    length slices = length (shape value) ∧
    rng' = mkRandomState (uniform_stream rng)
             (uniform_pos rng +
              targeted_count (LocalGaussian.resolve_axes self (shape value)) 0
                             (length (shape value)))
             (normal_stream rng)
             (normal_pos rng +
              Z.to_nat (prodZ (window_shape (shape value) slices))).
Proof.
  intros H. unfold LocalGaussian.noisy_data in H.
  apply bind_Ok in H as (slices & rng1 & Hsl & H).
  apply bind_Ok in H as (noise & rng2 & Hnoise & H).
  unfold ret in H. simplify_eq. simpl in *.
  pose proof (make_slices_from_length _ _ _ _ _ _ _ Hsl) as Hlen.
  pose proof (make_slices_from_inv _ _ _ _ _ _ _ Hsl) as [-> _].
  exists slices. split; [done |]. split; [done |].
  unfold normal in Hnoise. by simplify_eq.
Qed.

(** X18. A successful run of lines 141-148 of [LocalGaussian.apply] consumes
    one integer draw per targeted dimension and one normal draw per element
    of the window, and gives every element of the window a draw of its own:
    the array built holds zero outside the window and, at a position inside,
    zero plus the normal draw at the offset of that position; the offsets of
    two different positions differ, and all lie below the number of elements
    of the window. *)
Theorem LocalGaussian_noise_draws (self : LocalGaussian.t) (value data : ndarray F)
    (rng rng' : RandomState F) :
  Forall (λ n, 0 ≤ n) (shape value) →
  LocalGaussian.noisy_data self value rng = (Ok data, rng') →
  ∃ slices rng1,
    _make_slices (shape value) (LocalGaussian.resolve_axes self (shape value))
                 (LocalGaussian.size self) rng = (Ok slices, rng1) ∧
    let ws := window_shape (shape value) slices in
    let offset (k : nat) :=
      ravel ws (zip_with Z.sub (unravel (shape value) (Z.of_nat k))
                               (window_origin (shape value) slices)) in
    let inside (k : nat) :=
      (k < Z.to_nat (prodZ (shape value)))%nat ∧
      in_window (shape value) slices (unravel (shape value) (Z.of_nat k)) = true in
    uniform_stream rng' = uniform_stream rng ∧
    normal_stream rng' = normal_stream rng ∧
    uniform_pos rng' =
      (uniform_pos rng +
       targeted_count (LocalGaussian.resolve_axes self (shape value)) 0
                      (length (shape value)))%nat ∧
    normal_pos rng' = (normal_pos rng + Z.to_nat (prodZ ws))%nat ∧
    shape data = shape value ∧
    (∀ k : nat, (k < Z.to_nat (prodZ (shape value)))%nat →
       buf data !! k =
         Some (if in_window (shape value) slices (unravel (shape value) (Z.of_nat k))
               then add zero (normal_stream rng
                                (normal_pos rng + Z.to_nat (offset k))%nat)
               else zero)) ∧
    (∀ k, inside k → 0 ≤ offset k < prodZ ws) ∧
    (∀ k1 k2, inside k1 → inside k2 → offset k1 = offset k2 → k1 = k2).
Proof.
  intros Hnn H. pose proof H as Hdata.
  apply noisy_data_run in H as (slices & Hsl & Hlen & ->).
  apply (noisy_data_inv _ _ _ _ _ Hnn) in Hdata
    as (slices' & rng1 & Hsl' & Hshape & _ & Hbuf).
  rewrite Hsl in Hsl'. simplify_eq.
  eexists slices', _. split; [exact Hsl |].
  intros ws offset inside. simpl. repeat (split; [done |]).
  assert (Hrel : ∀ k, inside k →
            in_bounds (shape value) (unravel (shape value) (Z.of_nat k)) ∧
            in_bounds ws (zip_with Z.sub (unravel (shape value) (Z.of_nat k))
                                         (window_origin (shape value) slices')) ∧
            zip_with Z.add (window_origin (shape value) slices')
              (zip_with Z.sub (unravel (shape value) (Z.of_nat k))
                              (window_origin (shape value) slices')) =
              unravel (shape value) (Z.of_nat k)).
  { intros k [Hk Hin].
    assert (in_bounds (shape value) (unravel (shape value) (Z.of_nat k))) as Hb.
    { apply unravel_in_bounds; [done | lia]. }
    split; [done |].
    by apply in_window_relative; [| apply in_bounds_length |]. }
  split.
  - intros k Hk. destruct (Hrel k Hk) as (_ & Hb & _). by apply ravel_bounds.
  - intros k1 k2 Hk1 Hk2 Heq.
    destruct (Hrel k1 Hk1) as (_ & Hb1 & Hadd1).
    destruct (Hrel k2 Hk2) as (_ & Hb2 & Hadd2).
    unfold offset in Heq.
    apply (f_equal (unravel ws)) in Heq.
    rewrite !unravel_ravel in Heq by done.
    rewrite Heq, Hadd2 in Hadd1.
    apply (f_equal (ravel (shape value))) in Hadd1.
    destruct Hk1 as [Hk1 _], Hk2 as [Hk2 _].
    rewrite !ravel_unravel in Hadd1 by (done || lia). lia.
Qed.

Lemma LocalGaussian_apply_Raise (op : LocalGaussian.t) (p : Array F)
    (rng : RandomState F) (e : PyError) :
  (_make_slices (shape (_value p))
     (LocalGaussian.resolve_axes op (shape (_value p)))
     (LocalGaussian.size op) rng).1 = Raise e →
  ∃ rng', LocalGaussian.apply (mkWorld op rng [p]) = (Raise e, mkWorld op rng' [p]).
Proof.
  intros H. unfold LocalGaussian.apply.
  unfold bind at 1. unfold get_self at 1.
  unfold bind at 1. unfold get_arrays at 1. cbn [arrays].
  unfold bind at 1, on_rng at 1. cbn [random_state self arrays].
  unfold LocalGaussian.noisy_data. unfold bind at 1. cbn [shape np_zeros].
  destruct (_make_slices _ _ _ rng) as [[slices|e'] rng1]; simpl in H; [discriminate |].
  simplify_eq. by eexists.
Qed.

(** X19. [LocalGaussian.apply] reaches the checks of the window builder:
    on one parameter, a targeted extent of 1 at most raises the
    [ValueError] of the builder (when every other targeted extent exceeds the
    size), and a size that reaches a targeted extent raises the
    [ValueError] of [rng.randint] for an upper bound that is not positive
    (when every targeted extent is 2 at least); in both cases the parameter
    is left as it was. *)
Theorem LocalGaussian_window_errors (self : LocalGaussian.t) (p : Array F)
    (rng : RandomState F) :
  let shp := shape (_value p) in
  let axes := LocalGaussian.resolve_axes self shp in
  let size := LocalGaussian.size self in
  ((∀ (a : nat) s, shp !! a = Some s → Z.of_nat a ∈ axes → s ≤ 1 ∨ size < s) →
   (∃ (a : nat) s, shp !! a = Some s ∧ Z.of_nat a ∈ axes ∧ s ≤ 1) →
   ∃ rng', LocalGaussian.apply (mkWorld self rng [p]) =
             (Raise (ValueError "Cannot crossover on axis with size 1"),
              mkWorld self rng' [p])) ∧
  ((∀ (a : nat) s, shp !! a = Some s → Z.of_nat a ∈ axes → 1 < s) →
   (∃ (a : nat) s, shp !! a = Some s ∧ Z.of_nat a ∈ axes ∧ s ≤ size) →
   ∃ rng', LocalGaussian.apply (mkWorld self rng [p]) =
             (Raise (ValueError "high <= 0"), mkWorld self rng' [p])).
Proof.
  intros shp axes size. split; intros Hpre Hex; apply LocalGaussian_apply_Raise.
  - by apply make_slices_from_Raise.
  - by apply make_slices_from_draw_rejected.
Qed.

(** X20. A size of 0 draws an empty window: when some dimension is
    targeted, a successful run of lines 141-148 with [size = 0] consumes no
    normal draw and builds an array of zeros. *)
Theorem LocalGaussian_size_0 (self : LocalGaussian.t) (value data : ndarray F)
    (rng rng' : RandomState F) :
  LocalGaussian.size self = 0 →
  Forall (λ n, 0 ≤ n) (shape value) →
  (∃ (a : nat) s, shape value !! a = Some s ∧
                  Z.of_nat a ∈ LocalGaussian.resolve_axes self (shape value)) →
  LocalGaussian.noisy_data self value rng = (Ok data, rng') →
  data = np_zeros (shape value) ∧ normal_pos rng' = normal_pos rng.
Proof.
  intros Hsize Hnn (a & s & Ha & Hax) Hrun.
  pose proof Hrun as Hdraws.
  apply noisy_data_run in Hdraws as (slices & Hsl & Hlen & ->).
  rewrite Hsize in Hsl.
  destruct (make_slices_from_window _ _ 0 _ _ _ (Z.le_refl 0) Hnn Hsl a s Ha)
    as (sl & Hsla & _ & Hws).
  apply py_in_spec in Hax as Hin. rewrite Hin in Hws.
  apply (noisy_data_inv _ _ _ _ _ Hnn) in Hrun
    as (slices' & rng1 & Hsl' & Hshape & Hblen & Hk).
  rewrite Hsize, Hsl in Hsl'. simplify_eq.
  split.
  - destruct data as [shd bufd]. unfold np_zeros. simpl in *. subst shd. f_equal.
    apply list_eq. intros k.
    destruct (decide (k < Z.to_nat (prodZ (shape value)))%nat) as [Hlt|Hge].
    + rewrite (Hk k Hlt), lookup_replicate_2 by done. simpl.
      destruct (in_window _ _ _) eqn:Hw; [| done]. exfalso.
      assert (in_bounds (shape value) (unravel (shape value) (Z.of_nat k))) as Hb.
      { apply unravel_in_bounds; [done | lia]. }
      destruct (lookup_lt_is_Some_2 (unravel (shape value) (Z.of_nat k)) a) as [j Hj].
      { rewrite (in_bounds_length _ _ Hb). by eapply lookup_lt_Some. }
      pose proof (in_window_lookup _ _ _ _ _ _ _ Hw Ha Hsla Hj) as Hrange.
      assert (Some (Z.max 0 ((slice_bounds sl s).2 - (slice_bounds sl s).1)) = Some 0)
        as Hz.
      { rewrite <- Hws. unfold window_shape. by rewrite lookup_zip_with, Ha, Hsla. }
      destruct (slice_bounds sl s) as [lo hi]. simpl in Hrange, Hz.
      assert (Z.max 0 (hi - lo) = 0) as Hz' by congruence. lia.
    + rewrite !lookup_ge_None_2; [done | rewrite length_replicate; lia | lia].
  - simpl. rewrite prodZ_zero; [lia |]. by eapply list_elem_of_lookup_2.
Qed.

End local_gaussian_extras.

(** ** TunedTranslation and the arity of the operators on one array *)

Section one_array_extras.
Context {F : Type} `{!Numeric F, !External F}.

(** X21. [TunedTranslation._apply_array] only moves elements: when it
    returns on a valid array, with valid weights, the array returned and the
    new weights have the shapes of the input and of the old weights and
    hold the same elements, each as many times; axis, shape and choices of
    the operator are unchanged. *)
Theorem TunedTranslation_permutes (self self' : TunedTranslation.t F)
    (data r : ndarray F) :
  wf_ndarray data →
  wf_ndarray (weights (TunedTranslation.shift self)) →
  TunedTranslation._apply_array [data] self = (Ok r, self') →
  shape r = shape data ∧ buf r ≡ₚ buf data ∧
  shape (weights (TunedTranslation.shift self')) =
    shape (weights (TunedTranslation.shift self)) ∧
  buf (weights (TunedTranslation.shift self')) ≡ₚ
    buf (weights (TunedTranslation.shift self)) ∧
  TunedTranslation.axis self' = TunedTranslation.axis self ∧
  TunedTranslation.shape self' = TunedTranslation.shape self ∧
  choices (TunedTranslation.shift self') = choices (TunedTranslation.shift self).
Proof.
  intros Hwf Hww H. unfold TunedTranslation._apply_array in H.
  unfold bind at 1 in H. unfold get at 1 in H.
  destruct (bool_decide (np_shape data = TunedTranslation.shape self)); simpl in H;
    [| discriminate].
  apply bind_Ok in H as (sh & s1 & Hsh & H).
  destruct (Choice_value (TunedTranslation.shift self)) as [sh'|]; [| discriminate].
  unfold of_option, ret in Hsh. simplify_eq.
  apply bind_Ok in H as (u & s2 & Hput & H).
  unfold put in Hput. unfold of_result in H. simplify_eq.
  match goal with
  | Hroll : np_roll data _ = Ok r |- _ =>
      destruct (np_roll_Permutation _ _ _ Hwf Hroll) as (Hshape & _ & Hperm)
  end.
  split; [done |]. split; [done |].
  cbn [TunedTranslation.shift TunedTranslation.axis TunedTranslation.shape weights
       choices].
  split; [done |]. split; [| done].
  unfold np_roll_flat. cbn [buf].
  apply (roll_by_Permutation
           (mkarray [size (weights (TunedTranslation.shift s1))]
                    (buf (weights (TunedTranslation.shift s1)))) [sh]); [| done].
  destruct Hww as [Hnn Hlen]. split; simpl.
  - repeat constructor. unfold size. by apply prodZ_nonneg.
  - rewrite Hlen. unfold size. f_equal. lia.
Qed.

(** X22. The operators on one array check their input before anything else:
    with any number of arrays other than 1, [Translation._apply_array],
    [TunedTranslation._apply_array] and [LocalGaussian.apply] fail their
    assertion, and so does [TunedTranslation._apply_array] on an array whose
    shape is not the configured one; the random state, the weights and the
    parameters are left as they were. *)
Theorem one_array_input_checks :
  (∀ (self : Translation.t) (arrays : list (ndarray F)) (rng : RandomState F),
     length arrays ≠ 1%nat →
     Translation._apply_array self arrays rng = (Raise (AssertionError ""), rng)) ∧
  (∀ (self : TunedTranslation.t F) (arrays : list (ndarray F)),
     length arrays ≠ 1%nat →
     TunedTranslation._apply_array arrays self = (Raise (AssertionError ""), self)) ∧
  (∀ (self : TunedTranslation.t F) (data : ndarray F),
     shape data ≠ TunedTranslation.shape self →
     TunedTranslation._apply_array [data] self = (Raise (AssertionError ""), self)) ∧
  (∀ (w : World LocalGaussian.t F),
     length (arrays w) ≠ 1%nat →
     LocalGaussian.apply w = (Raise (AssertionError ""), w)).
Proof.
  split; [| split; [| split]].
  - intros self [|a [|b arrays]] rng Hlen; simpl in Hlen; try done; lia.
  - intros self [|a [|b arrays]] Hlen; simpl in Hlen; try done; lia.
  - intros self data Hne. unfold TunedTranslation._apply_array.
    unfold bind, get. by rewrite bool_decide_eq_false_2.
  - intros w Hlen. unfold LocalGaussian.apply.
    unfold bind at 1. unfold get_self at 1.
    unfold bind at 1. unfold get_arrays at 1.
    destruct (arrays w) as [|a [|b ps]]; simpl in Hlen; try done; lia.
Qed.

End one_array_extras.

(** ** The attribute [dim] and the number of draws *)

Lemma advance_add {F} (n m : nat) (rng : RandomState F) :
  advance n (advance m rng) = advance (m + n) rng.
Proof. unfold advance. simpl. f_equal. lia. Qed.

Section draws_extras.
Context {F : Type} `{!Numeric F} `{!External F}.

(** X23. The default axes cannot be used where they are read from
    [ndarray.dim]: with no axis configured, [Translation._apply_array] on
    one array, and [Crossover._apply_array] with the spectral flag on two
    arrays, raise [AttributeError] for [dim] and draw nothing. *)
Theorem default_axes_attribute_error :
  (∀ (self : Translation.t) (data : ndarray F) (rng : RandomState F),
     Translation.axis self = None →
     Translation._apply_array self [data] rng = (Raise (AttributeError "dim"), rng)) ∧
  (∀ (self : Crossover.t) (a0 a1 : ndarray F) (rng : RandomState F),
     Crossover.fft self = true → Crossover.axis self = None →
     Crossover._apply_array self [a0; a1] rng = (Raise (AttributeError "dim"), rng)).
Proof.
  split.
  - intros self data rng Hax. unfold Translation._apply_array. by rewrite Hax.
  - intros self a0 a1 rng Hfft Hax. unfold Crossover._apply_array.
    by rewrite Hfft, Hax.
Qed.

(** X24. A successful [Crossover._apply_array] without the spectral flag
    consumes integer draws only: none or one for the size, then one per
    targeted dimension, so never more than the number of dimensions plus
    one; no draw is made for the size exactly when the maximal size,
    bounded by the extents minus 1, is 1. *)
Theorem Crossover_draws (self : Crossover.t) (a0 a1 r : ndarray F)
    (rng rng' : RandomState F) :
  Crossover.fft self = false →
  Crossover._apply_array self [a0; a1] rng = (Ok r, rng') →
  ∃ (k : nat) xs,
    Crossover.extents_minus_1 (shape a0) (Crossover.resolve_axis self (shape a0)) = Ok xs ∧
    (k = if foldl Z.min (resolved_max_size self a0) xs =? 1 then 0%nat else 1%nat) ∧
    rng' = advance (k + targeted_count (Crossover.resolve_axis self (shape a0)) 0
                                       (length (shape a0))) rng ∧
    (k + targeted_count (Crossover.resolve_axis self (shape a0)) 0 (length (shape a0))
       ≤ 1 + length (shape a0))%nat.
Proof.
  intros Hfft Hrun.
  apply Crossover_apply_array_inv in Hrun
    as (b0 & b1 & post & axis & size & rng1 & slices & Hcases & Hshape & Hset & Hsl & _).
  destruct Hcases as [(_ & -> & -> & ->) | (ax & Hf & _)]; [| congruence].
  apply settings_success in Hset as (-> & Hne & xs & Hxs & Hcase).
  apply make_slices_from_inv in Hsl as [-> _].
  assert (Hcount : ∀ axes a n, (targeted_count axes a n ≤ n)%nat).
  { intros axes a n. revert a. induction n as [|n IH]; intros a; simpl; [lia |].
    specialize (IH (S a)). destruct (py_in (Z.of_nat a) axes); lia. }
  specialize (Hcount (Crossover.resolve_axis self (shape a0)) 0%nat (length (shape a0))).
  simpl in Hcase. destruct Hcase as [(Hc & _ & ->) | (Hc & -> & _)].
  - exists 0%nat, xs. split; [done |]. rewrite Hc. simpl. split; [done |].
    split; [done | lia].
  - exists 1%nat, xs. split; [done |].
    destruct (Z.eqb_spec (foldl Z.min (resolved_max_size self a0) xs) 1); [lia |].
    split; [done |]. split; [by rewrite advance_add | lia].
Qed.

End draws_extras.

(** ** The further properties at concrete inputs *)

Lemma make_slices_draws_witness :
  _make_slices [4; 4] [1] 2 rng0 = (Ok [Slice 0 4; Slice 1 3], advance 1 rng0) ∧
  length [Slice 0 4; Slice 1 3] = length [4; 4] ∧
  advance 1 rng0 = advance (targeted_count [1] 0 (length [4; 4])) rng0 ∧
  (targeted_count [1%Z] 0 (length [4%Z; 4%Z]) ≤ length [4%Z; 4%Z])%nat.
Proof.
  split; [reflexivity |].
  apply (make_slices_draws [4; 4] [1] 2 rng0 (advance 1 rng0) [Slice 0 4; Slice 1 3]).
  reflexivity.
Defined.

Lemma make_slices_ignores_other_axes_witness :
  _make_slices [4; 4] [-1; 5] 2 rng0 = (Ok [Slice 0 4; Slice 0 4], rng0).
Proof.
  apply (make_slices_ignores_other_axes [4; 4] [-1; 5] 2 rng0).
  constructor; [left; lia |]. constructor; [right; simpl; lia |]. constructor.
Defined.

Lemma make_slices_size_too_large_witness :
  (_make_slices [4; 4] [1] 4 rng0).1 = Raise (ValueError "high <= 0").
Proof.
  apply (make_slices_size_too_large [4; 4] [1] 4 rng0).
  - intros a s Ha _. destruct a as [|[|a]]; simpl in Ha; simplify_eq; lia.
  - exists 1%nat, 4. split; [reflexivity |].
    split; [apply list_elem_of_singleton; reflexivity | lia].
Defined.

Lemma make_slices_only_value_errors_witness :
  _make_slices [4; 1] [1] 2 rng0 =
    (Raise (ValueError "Cannot crossover on axis with size 1"), rng0) ∧
  (ValueError "Cannot crossover on axis with size 1" =
     ValueError "Cannot crossover on axis with size 1" ∨
   ValueError "Cannot crossover on axis with size 1" = ValueError "high <= 0").
Proof.
  split; [reflexivity |].
  apply (make_slices_only_value_errors [4; 1] [1] 2 rng0 rng0).
  reflexivity.
Defined.

Lemma make_slices_window_shape_witness :
  0 ≤ 2 ∧
  ∃ sl, [Slice 0 4; Slice 1 3] !! 1%nat = Some sl ∧
        window_origin [4; 4] [Slice 0 4; Slice 1 3] !! 1%nat = Some (start sl) ∧
        window_shape [4; 4] [Slice 0 4; Slice 1 3] !! 1%nat = Some 2.
Proof.
  split; [lia |].
  apply (make_slices_window_shape [4; 4] [1] 2 rng0 (advance 1 rng0)
           [Slice 0 4; Slice 1 3]) with (a := 1%nat) (s := 4).
  - lia.
  - repeat (constructor; [lia |]). constructor.
  - reflexivity.
  - reflexivity.
Defined.

Lemma Crossover_result_elements_witness :
  wf_ndarray A44 ∧ wf_ndarray B44 ∧
  ∃ r slices,
    (Crossover._apply_array (Crossover.mk (Some [1]) (Some 3) false) [A44; B44] rng0).1 =
      Ok r ∧
    ∀ (k : nat) x, buf A44 !! k = Some x →
      buf r !! k = if in_window [4; 4] slices (unravel [4; 4] (Z.of_nat k))
                   then buf B44 !! k else Some x.
Proof.
  assert (wf_ndarray A44) as Hwf0 by valid_array.
  assert (wf_ndarray B44) as Hwf1 by valid_array.
  split; [exact Hwf0 |]. split; [exact Hwf1 |].
  destruct (Crossover._apply_array (Crossover.mk (Some [1]) (Some 3) false)
              [A44; B44] rng0) as [[r|e] rng'] eqn:Hrun.
  - destruct (Crossover_result_elements (Crossover.mk (Some [1]) (Some 3) false)
                A44 B44 r rng0 rng' eq_refl Hwf0 Hwf1 Hrun)
      as (axis & size & rng1 & slices & _ & _ & _ & _ & Hk).
    exists r, slices. split; [reflexivity | exact Hk].
  - vm_compute in Hrun. discriminate Hrun.
Defined.

Lemma Crossover_size_below_max_witness :
  Crossover.settings (Crossover.mk (Some [1]) (Some 3) false) A44 rng0 =
    (Ok ([1], 2), advance 1 rng0) ∧
  1 ≤ 2 ∧
  (2 = 1 ∨
   ((∀ m, Some 3 = Some m → 2 ≤ m - 1) ∧
    ∀ a, a ∈ [1] → ∃ s, py_getitem (shape A44) a = Some s ∧ 2 ≤ s - 2)) ∧
  (advance 1 rng0 = rng0 ∨ advance 1 rng0 = advance 1 rng0).
Proof.
  split; [reflexivity |].
  apply (Crossover_size_below_max (Crossover.mk (Some [1]) (Some 3) false) A44 [1] 2
           rng0 (advance 1 rng0)).
  reflexivity.
Defined.

Lemma Crossover_negative_axes_take_second_witness :
  ∃ r, (Crossover._apply_array (Crossover.mk (Some [-1]) (Some 3) false)
          [A44; B44] rng0).1 = Ok r ∧ r = B44.
Proof.
  destruct (Crossover._apply_array (Crossover.mk (Some [-1]) (Some 3) false)
              [A44; B44] rng0) as [[r|e] rng'] eqn:Hrun.
  - exists r. split; [reflexivity |].
    apply (Crossover_negative_axes_take_second
             (Crossover.mk (Some [-1]) (Some 3) false) [-1] A44 B44 r rng0 rng').
    + reflexivity.
    + reflexivity.
    + constructor; [lia | constructor].
    + valid_array.
    + valid_array.
    + exact Hrun.
  - vm_compute in Hrun. discriminate Hrun.
Defined.

Lemma Crossover_input_checks_witness :
  Crossover._apply_array (Crossover.mk (Some [1]) (Some 3) false) [A44] rng0 =
    (Raise (Exception_ "Crossover can only be applied between 2 individuals"), rng0) ∧
  Crossover._apply_array (Crossover.mk (Some [1]) (Some 3) false) [A44; A13] rng0 =
    (Raise (AssertionError "Individuals should have the same shape"), rng0).
Proof.
  destruct (Crossover_input_checks (Crossover.mk (Some [1]) (Some 3) false) rng0)
    as [Harity Hshape].
  split.
  - apply Harity. simpl. lia.
  - apply Hshape; [reflexivity |]. intros H. vm_compute in H. discriminate H.
Defined.

Lemma Crossover_axis_errors_witness :
  Crossover._apply_array (Crossover.mk (Some []) None false) [A44; B44] rng0 =
    (Raise ZeroDivisionError, rng0) ∧
  Crossover._apply_array (Crossover.mk (Some [2]) (Some 3) false) [A44; B44] rng0 =
    (Raise IndexError, rng0).
Proof.
  split.
  - apply (proj1 (Crossover_axis_errors (Crossover.mk (Some []) None false) A44 B44 rng0
                    eq_refl eq_refl)).
    reflexivity.
  - apply (proj2 (Crossover_axis_errors (Crossover.mk (Some [2]) (Some 3) false) A44 B44
                    rng0 eq_refl eq_refl)).
    constructor. unfold ndim. simpl. lia.
Defined.

Lemma Crossover_returns_iff_witness :
  ∃ r rng', Crossover._apply_array (Crossover.mk (Some [1]) (Some 3) false)
              [A44; B44] rng0 = (Ok r, rng').
Proof.
  apply (proj2 (Crossover_returns_iff (Crossover.mk (Some [1]) (Some 3) false) A44 B44
                  rng0 eq_refl)).
  split; [reflexivity |]. split; [discriminate |]. split.
  - constructor; [| constructor]. exists 4. split; [reflexivity | lia].
  - unfold resolved_max_size. simpl. lia.
Defined.

Lemma Crossover_apply_success_witness :
  ∃ w' p0 p1,
    Crossover.apply (mkWorld (Crossover.mk (Some [1]) (Some 3) false) rng0
                       [mkArray A44 (None, None) []; mkArray B44 (None, None) []]) =
      (Ok (), w') ∧
    [mkArray A44 (None, None) []; mkArray B44 (None, None) []] = [p0; p1] ∧
    self w' = Crossover.mk (Some [1]) (Some 3) false.
Proof.
  destruct (Crossover.apply (mkWorld (Crossover.mk (Some [1]) (Some 3) false) rng0
              [mkArray A44 (None, None) []; mkArray B44 (None, None) []]))
    as [[[]|e] w'] eqn:Hrun.
  - destruct (Crossover_apply_success _ w' Hrun)
      as (p0 & p1 & r & rng' & Harr & _ & Hself & _).
    exists w', p0, p1. split; [reflexivity |]. split; [exact Harr | exact Hself].
  - vm_compute in Hrun. discriminate Hrun.
Defined.

Lemma np_roll_compose_witness :
  np_roll A44 ([(1, 0)] ++ [(2, 1)]) =
    match np_roll A44 [(1, 0)] with
    | Ok r1 => np_roll r1 [(2, 1)]
    | Raise e => Raise e
    end.
Proof.
  apply (np_roll_compose A44 [(1, 0)] [(2, 1)]).
  repeat (constructor; [lia |]). constructor.
Defined.

Lemma np_roll_full_turns_witness : np_roll A44 [(4, 0); (-8, 1)] = Ok A44.
Proof.
  apply (np_roll_full_turns A44 [(4, 0); (-8, 1)]).
  - valid_array.
  - constructor; [exists 4; split; reflexivity |].
    constructor; [exists 4; split; reflexivity |]. constructor.
Defined.

Lemma Translation_permutes_witness :
  ∃ r, (Translation._apply_array (Translation.mk (Some [0; 1])) [A44] rng0).1 = Ok r ∧
       buf r ≡ₚ buf A44.
Proof.
  destruct (Translation._apply_array (Translation.mk (Some [0; 1])) [A44] rng0)
    as [[r|e] rng'] eqn:Hrun.
  - exists r. split; [reflexivity |].
    destruct (Translation_permutes (Translation.mk (Some [0; 1])) A44 r rng0 rng')
      as (_ & _ & Hperm & _).
    + valid_array.
    + exact Hrun.
    + exact Hperm.
  - vm_compute in Hrun. discriminate Hrun.
Defined.

Lemma Translation_returns_iff_witness :
  ∃ r rng', Translation._apply_array (Translation.mk (Some [0; -1])) [A44] rng0 =
              (Ok r, rng').
Proof.
  apply (proj2 (Translation_returns_iff (Translation.mk (Some [0; -1])) A44 rng0)).
  exists [0; -1]. split; [reflexivity |].
  constructor; [exists 4; split; [reflexivity | lia] |].
  constructor; [exists 4; split; [reflexivity | lia] |]. constructor.
Defined.

Lemma Translation_single_axis_witness :
  ∃ r (ax : nat) (n : Z),
    (Translation._apply_array (Translation.mk (Some [-1])) [A44] rng0).1 = Ok r ∧
    normalize_index (ndim A44) (-1) = Some (Z.of_nat ax) ∧
    shape A44 !! ax = Some n ∧ 0 < n.
Proof.
  destruct (Translation._apply_array (Translation.mk (Some [-1])) [A44] rng0)
    as [[r|e] rng'] eqn:Hrun.
  - destruct (Translation_single_axis (Translation.mk (Some [-1])) (-1) A44 r rng0 rng'
                eq_refl Hrun) as (ax & n & Hnorm & Hn & Hpos & _).
    exists r, ax, n. split; [reflexivity |].
    split; [exact Hnorm |]. split; [exact Hn | exact Hpos].
  - vm_compute in Hrun. discriminate Hrun.
Defined.

Lemma LocalGaussian_noise_draws_witness :
  ∃ data rng',
    LocalGaussian.noisy_data (LocalGaussian.mk None 2) A5 rng0 = (Ok data, rng') ∧
    uniform_pos rng' = (uniform_pos rng0 + targeted_count [0%Z] 0 1)%nat ∧
    normal_pos rng' = (normal_pos rng0 + 2)%nat ∧
    buf data !! 2%nat = Some (0 + normal_stream rng0 (normal_pos rng0 + 1)%nat).
Proof.
  destruct (LocalGaussian.noisy_data (LocalGaussian.mk None 2) A5 rng0)
    as [[data|e] rng'] eqn:Hrun.
  - exists data, rng'. split; [reflexivity |].
    destruct (LocalGaussian_noise_draws (LocalGaussian.mk None 2) A5 data rng0 rng')
      as (slices & rng1 & Hsl & H).
    + repeat (constructor; [lia |]). constructor.
    + exact Hrun.
    + cbv zeta in H. destruct H as (_ & _ & Hup & Hnp & _ & Hbuf & _).
      vm_compute in Hsl. injection Hsl as <- _.
      split; [exact Hup |]. split; [exact Hnp |].
      apply (Hbuf 2%nat). vm_compute. lia.
  - vm_compute in Hrun. discriminate Hrun.
Defined.

Lemma LocalGaussian_window_errors_witness :
  (∃ rng', LocalGaussian.apply (mkWorld (LocalGaussian.mk None 4) rng0 [P4]) =
             (Raise (ValueError "high <= 0"),
              mkWorld (LocalGaussian.mk None 4) rng' [P4])) ∧
  (∃ rng', LocalGaussian.apply
             (mkWorld (LocalGaussian.mk None 1) rng0 [mkArray A13 (None, None) []]) =
             (Raise (ValueError "Cannot crossover on axis with size 1"),
              mkWorld (LocalGaussian.mk None 1) rng'
                      [mkArray A13 (None, None) []])).
Proof.
  split.
  - apply (proj2 (LocalGaussian_window_errors (LocalGaussian.mk None 4) P4 rng0)).
    + intros a s Ha _. destruct a as [|a]; simpl in Ha; simplify_eq; lia.
    + exists 0%nat, 4. split; [reflexivity |].
      split; [apply list_elem_of_here | simpl; lia].
  - apply (proj1 (LocalGaussian_window_errors (LocalGaussian.mk None 1)
                    (mkArray A13 (None, None) []) rng0)).
    + intros a s Ha _.
      destruct a as [|[|a]]; simpl in Ha; simplify_eq; [left | right]; simpl; lia.
    + exists 0%nat, 1. split; [reflexivity |].
      split; [apply list_elem_of_here | lia].
Defined.

Lemma LocalGaussian_size_0_witness :
  ∃ data rng',
    LocalGaussian.noisy_data (LocalGaussian.mk None 0) A5 rng0 = (Ok data, rng') ∧
    data = np_zeros [5] ∧ normal_pos rng' = normal_pos rng0.
Proof.
  destruct (LocalGaussian.noisy_data (LocalGaussian.mk None 0) A5 rng0)
    as [[data|e] rng'] eqn:Hrun.
  - exists data, rng'. split; [reflexivity |].
    apply (LocalGaussian_size_0 (LocalGaussian.mk None 0) A5 data rng0 rng').
    + reflexivity.
    + repeat (constructor; [lia |]). constructor.
    + exists 0%nat, 5. split; [reflexivity | apply list_elem_of_here].
    + exact Hrun.
  - vm_compute in Hrun. discriminate Hrun.
Defined.

Lemma TunedTranslation_permutes_witness :
  ∃ r self',
    TunedTranslation._apply_array [A44] tuned0 = (Ok r, self') ∧
    buf r ≡ₚ buf A44 ∧
    buf (weights (TunedTranslation.shift self')) ≡ₚ [7; 8; 9].
Proof.
  destruct (TunedTranslation._apply_array [A44] tuned0) as [[r|e] self'] eqn:Hrun.
  - exists r, self'. split; [reflexivity |].
    destruct (TunedTranslation_permutes tuned0 self' A44 r)
      as (_ & Hperm & _ & Hw & _).
    + valid_array.
    + valid_array.
    + exact Hrun.
    + split; [exact Hperm | exact Hw].
  - vm_compute in Hrun. discriminate Hrun.
Defined.

Lemma one_array_input_checks_witness :
  Translation._apply_array (Translation.mk (Some [0])) [A44; B44] rng0 =
    (Raise (AssertionError ""), rng0) ∧
  TunedTranslation._apply_array [A5] tuned0 = (Raise (AssertionError ""), tuned0).
Proof.
  destruct (one_array_input_checks (F:=Z)) as (Htr & _ & Hshape & _).
  split.
  - apply Htr. simpl. lia.
  - apply Hshape. intros H. vm_compute in H. discriminate H.
Defined.

Lemma default_axes_attribute_error_witness :
  Translation._apply_array (Translation.mk None) [A44] rng0 =
    (Raise (AttributeError "dim"), rng0) ∧
  Crossover._apply_array (Crossover.mk None (Some 2) true) [A44; B44] rng0 =
    (Raise (AttributeError "dim"), rng0).
Proof.
  destruct (default_axes_attribute_error (F:=Z)) as [Htr Hcr].
  split; [apply Htr | apply Hcr]; reflexivity.
Defined.

Lemma Crossover_draws_witness :
  ∃ r rng' (k : nat),
    Crossover._apply_array (Crossover.mk (Some [1]) (Some 3) false) [A44; B44] rng0 =
      (Ok r, rng') ∧
    rng' = advance (k + targeted_count [1] 0 2) rng0.
Proof.
  destruct (Crossover._apply_array (Crossover.mk (Some [1]) (Some 3) false)
              [A44; B44] rng0) as [[r|e] rng'] eqn:Hrun.
  - destruct (Crossover_draws (Crossover.mk (Some [1]) (Some 3) false) A44 B44 r rng0 rng'
                eq_refl Hrun) as (k & xs & _ & _ & Hrng & _).
    exists r, rng', k. split; [reflexivity | exact Hrng].
  - vm_compute in Hrun. discriminate Hrun.
Defined.
